(** * BufMgr: the BadgerDB buffer pool manager (src/buffer.cpp)

    A shallow embedding of [BufMgr] and of its clock replacement policy.
    The manager's members are a record, every method is a computation in a
    small state-and-exception monad, and the two collaborators the methods
    call into (the file layer and the page hash table) are kept behind
    narrow interfaces. *)

From Stdlib Require Import ZArith Lia.
From Stdlib Require Import Floats.SpecFloat.
From stdpp Require Import base option list gmap.

Local Open Scope Z_scope.

(** ** Scalar types *)

(** [FrameId], [PageId] and [numBufs] are [std::uint32_t]; they are carried
    as [Z] and every place where the source can wrap is written with
    [wrap32]. A [File*] is compared by address only, so a file is its
    identity. *)
Definition FrameId := Z.
Definition PageId := Z.
Definition File := Z.

Definition UINT32_MODULUS : Z := 2 ^ 32.
Definition wrap32 (z : Z) : Z := z mod UINT32_MODULUS.

(** Arithmetic on [int] is undefined when its result is not an [int]:
    [None]. *)
Definition INT_MAX : Z := 2 ^ 31 - 1.
Definition INT_MIN : Z := - 2 ^ 31.
Definition int_result (z : Z) : option Z :=
  if decide (INT_MIN ≤ z ≤ INT_MAX) then Some z else None.

(** A [double] is an IEEE 754 binary64 number, its operations round to
    nearest even. A [uint32] converts exactly; the literal [1.2] is the
    double nearest to 6/5; [(int) x] truncates towards zero and is
    undefined when the truncated value is not an [int]. *)
Definition double_of_uint32 (n : Z) : spec_float := binary_normalize 53 1024 n 0 false.
Definition double_1_2 : spec_float := S754_finite false 5404319552844595 (-52).
Definition double_mul : spec_float → spec_float → spec_float := SFmul 53 1024.
Definition int_of_double (x : spec_float) : option Z :=
  match x with
  | S754_zero _ => Some 0
  | S754_finite sign m e =>
      let a := if decide (0 ≤ e) then Z.pos m * 2 ^ e else Z.pos m / 2 ^ (- e) in
      int_result (if sign then - a else a)
  | _ => None
  end.

(** The constructor's [int htsize = ((((int) (bufs * 1.2))*2)/2)+1]:
    [bufs] is converted to [double] and multiplied there; the rest is
    [int] arithmetic. *)
Definition htsize (bufs : Z) : option Z :=
  t ← int_of_double (double_mul (double_of_uint32 bufs) double_1_2);
  t2 ← int_result (t * 2);
  int_result (Z.quot t2 2 + 1).

(** A page: the accessor [page_number()] and an opaque payload. *)
Record Page : Type := mkPage {
  page_number : PageId;
  page_data : Z
}.

Definition emptyPage : Page := mkPage 0 0.

(** ** Frame descriptors *)

Record BufDesc : Type := mkBufDesc {
  file : option File;      (* File* file, NULL is None *)
  pageNo : PageId;
  frameNo : FrameId;
  pinCnt : Z;              (* an int, see [pinCnt_result] *)
  dirty : bool;
  valid : bool;
  refbit : bool
}.

Definition with_pinCnt (n : Z) (d : BufDesc) : BufDesc :=
  mkBufDesc (file d) (pageNo d) (frameNo d) n (dirty d) (valid d) (refbit d).
Definition with_dirty (b : bool) (d : BufDesc) : BufDesc :=
  mkBufDesc (file d) (pageNo d) (frameNo d) (pinCnt d) b (valid d) (refbit d).
Definition with_valid (b : bool) (d : BufDesc) : BufDesc :=
  mkBufDesc (file d) (pageNo d) (frameNo d) (pinCnt d) (dirty d) b (refbit d).
Definition with_refbit (b : bool) (d : BufDesc) : BufDesc :=
  mkBufDesc (file d) (pageNo d) (frameNo d) (pinCnt d) (dirty d) (valid d) b.
Definition with_frameNo (i : FrameId) (d : BufDesc) : BufDesc :=
  mkBufDesc (file d) (pageNo d) i (pinCnt d) (dirty d) (valid d) (refbit d).

(** Modelled from the spec: [pinCnt] is declared in buffer.h, which is not
    among the sources, and section 3 gives the pin count no width. It is
    taken to be an [int], the type buffer.cpp uses for its other signed
    scalars: an increment past [INT_MAX] or a decrement below [INT_MIN]
    is undefined. *)
Definition pinCnt_result (z : Z) : option Z := int_result z.

(** Modelled from the spec: [BufDesc::Set] is declared in buffer.h, which is
    not among the sources. Section 4.2 gives the descriptor after
    initialisation: pinCount = 1, referenced = true, dirty = false,
    owner = file, pageNumber = pageNumber, valid = true. *)
Definition Set_ (f : File) (p : PageId) (d : BufDesc) : BufDesc :=
  mkBufDesc (Some f) p (frameNo d) 1 false true true.

(** Modelled from the spec: [BufDesc::Clear] is declared in buffer.h, which
    is not among the sources. Section 4.5 calls its result the
    unoccupied state (valid = false, owner = none); an unoccupied frame has
    no holder and nothing to write back. *)
Definition Clear (d : BufDesc) : BufDesc :=
  mkBufDesc None (pageNo d) (frameNo d) 0 false false false.

(** ** Exceptions and outcomes *)

Inductive Exn : Type :=
  | BufferExceededException
  | PageNotPinnedException
  | PagePinnedException
  | BadBufferException
  | HashNotFoundException
  | FileException.           (* anything the file layer throws *)

Global Instance Exn_eq_dec : EqDecision Exn.
Proof. solve_decision. Defined.

(** What a call can do: return, throw, or leave defined behaviour (an array
    index out of range, a null [File*] dereferenced, a modulus of zero, an
    [int] result that is not an [int]).
    [Diverges] stands for a replacement scan that does not finish. *)
Inductive Outcome (A : Type) : Type :=
  | Ok (a : A)
  | Throw (e : Exn)
  | Undefined
  | Diverges.
Arguments Ok {A} a.
Arguments Throw {A} e.
Arguments Undefined {A}.
Arguments Diverges {A}.

(** ** The file layer *)

(** Calls made on [File] objects, in the order they are made. *)
Inductive IOEvent : Type :=
  | EvRead (f : File) (p : PageId)
  | EvWrite (f : File) (pg : Page)
  | EvAllocate (f : File)
  | EvDelete (f : File) (p : PageId).

(** The file layer is an external collaborator: any state [Disk] with the
    four operations the manager calls. [None] is a thrown exception. *)
Class FileLayer (Disk : Type) : Type := {
  file_readPage : File → PageId → Disk → option Page;
  file_writePage : File → Page → Disk → option Disk;
  file_allocatePage : File → Disk → option (Page * Disk);
  file_deletePage : File → PageId → Disk → option Disk
}.

(** ** The manager *)

Record State (Disk : Type) : Type := mkState {
  numBufs : Z;
  bufDescTable : list BufDesc;
  bufPool : list Page;
  (* Modelled from the spec: BufHashTbl is not among the sources;
     section 3 describes the PageIndex as a map with unique keys from
     (file, page number) to frame id. *)
  hashTable : gmap (File * PageId) FrameId;
  clockHand : FrameId;
  (* the world outside the manager *)
  disk : Disk;
  io_log : list IOEvent
}.
Arguments mkState {Disk}.
Arguments numBufs {Disk}.
Arguments bufDescTable {Disk}.
Arguments bufPool {Disk}.
Arguments hashTable {Disk}.
Arguments clockHand {Disk}.
Arguments disk {Disk}.
Arguments io_log {Disk}.

(** Array access by a [uint32] index. *)
Definition frame_lookup {A : Type} (l : list A) (i : FrameId) : option A :=
  if decide (0 ≤ i) then l !! Z.to_nat i else None.
Definition frame_update {A : Type} (l : list A) (i : FrameId) (x : A) : list A :=
  <[Z.to_nat i := x]> l.

Section BufMgr.
Context {Disk : Type} `{FL : FileLayer Disk}.

Abbreviation St := (State Disk).

Definition with_descs (ds : list BufDesc) (s : St) : St :=
  mkState (numBufs s) ds (bufPool s) (hashTable s) (clockHand s) (disk s) (io_log s).
Definition with_pool (ps : list Page) (s : St) : St :=
  mkState (numBufs s) (bufDescTable s) ps (hashTable s) (clockHand s) (disk s) (io_log s).
Definition with_hash (h : gmap (File * PageId) FrameId) (s : St) : St :=
  mkState (numBufs s) (bufDescTable s) (bufPool s) h (clockHand s) (disk s) (io_log s).
Definition with_clock (c : FrameId) (s : St) : St :=
  mkState (numBufs s) (bufDescTable s) (bufPool s) (hashTable s) c (disk s) (io_log s).
Definition with_disk (d : Disk) (s : St) : St :=
  mkState (numBufs s) (bufDescTable s) (bufPool s) (hashTable s) (clockHand s) d (io_log s).
Definition with_event (e : IOEvent) (s : St) : St :=
  mkState (numBufs s) (bufDescTable s) (bufPool s) (hashTable s) (clockHand s) (disk s)
          (io_log s ++ [e]).

(** *** The monad: state that survives a throw *)

Definition M (A : Type) : Type := St → Outcome A * St.

Definition ret {A} (a : A) : M A := λ s, (Ok a, s).
Definition bind {A B} (m : M A) (k : A → M B) : M B := λ s,
  match m s with
  | (Ok a, s') => k a s'
  | (Throw e, s') => (Throw e, s')
  | (Undefined, s') => (Undefined, s')
  | (Diverges, s') => (Diverges, s')
  end.
Definition throw {A} (e : Exn) : M A := λ s, (Throw e, s).

(** [try { body } catch (E&) { handler }]: the handler starts from the
    state the body left behind. *)
Definition try_catch {A} (body : M A) (catches : Exn → bool) (handler : M A) : M A := λ s,
  match body s with
  | (Throw e, s') => if catches e then handler s' else (Throw e, s')
  | r => r
  end.

Notation "x ← m ; k" := (bind m (λ x, k))
  (at level 20, m at level 100, k at level 200, only parsing, right associativity).
Notation "m ;; k" := (bind m (λ _, k))
  (at level 100, k at level 200, right associativity).

(** *** Primitive accesses *)

Definition get_desc (i : FrameId) : M BufDesc := λ s,
  match frame_lookup (bufDescTable s) i with
  | Some d => (Ok d, s)
  | None => (Undefined, s)
  end.
Definition set_desc (i : FrameId) (d : BufDesc) : M unit := λ s,
  (Ok tt, with_descs (frame_update (bufDescTable s) i d) s).
Definition get_page (i : FrameId) : M Page := λ s,
  match frame_lookup (bufPool s) i with
  | Some p => (Ok p, s)
  | None => (Undefined, s)
  end.
Definition set_page (i : FrameId) (p : Page) : M unit := λ s,
  match frame_lookup (bufPool s) i with
  | Some _ => (Ok tt, with_pool (frame_update (bufPool s) i p) s)
  | None => (Undefined, s)
  end.
Definition deref (f : option File) : M File := λ s,
  match f with
  | Some x => (Ok x, s)
  | None => (Undefined, s)
  end.
Definition defined {A} (x : option A) : M A := λ s,
  match x with
  | Some a => (Ok a, s)
  | None => (Undefined, s)
  end.

(** Modelled from the spec: BufHashTbl's methods (section 6):
    [insert(key, frameId)], [lookup(key) -> frameId | NotFound],
    [remove(key)]. Sections 3 and 4.6 name a failure of [lookup] and a
    failure of [remove]: a key that is not in the index is signalled by
    NotFound, by either method. *)
Definition hash_lookup (f : File) (p : PageId) : M FrameId := λ s,
  match hashTable s !! (f, p) with
  | Some i => (Ok i, s)
  | None => (Throw HashNotFoundException, s)
  end.
Definition hash_insert (f : File) (p : PageId) (i : FrameId) : M unit := λ s,
  (Ok tt, with_hash (<[(f, p) := i]> (hashTable s)) s).
Definition hash_remove (f : File) (p : PageId) : M unit := λ s,
  match hashTable s !! (f, p) with
  | Some _ => (Ok tt, with_hash (delete (f, p) (hashTable s)) s)
  | None => (Throw HashNotFoundException, s)
  end.

(** Calls into the file layer; each is logged when it is made. *)
Definition File_readPage (f : File) (p : PageId) : M Page := λ s,
  let s1 := with_event (EvRead f p) s in
  match file_readPage f p (disk s) with
  | Some pg => (Ok pg, s1)
  | None => (Throw FileException, s1)
  end.
Definition File_writePage (f : File) (pg : Page) : M unit := λ s,
  let s1 := with_event (EvWrite f pg) s in
  match file_writePage f pg (disk s) with
  | Some d' => (Ok tt, with_disk d' s1)
  | None => (Throw FileException, s1)
  end.
Definition File_allocatePage (f : File) : M Page := λ s,
  let s1 := with_event (EvAllocate f) s in
  match file_allocatePage f (disk s) with
  | Some (pg, d') => (Ok pg, with_disk d' s1)
  | None => (Throw FileException, s1)
  end.
Definition File_deletePage (f : File) (p : PageId) : M unit := λ s,
  let s1 := with_event (EvDelete f p) s in
  match file_deletePage f p (disk s) with
  | Some d' => (Ok tt, with_disk d' s1)
  | None => (Throw FileException, s1)
  end.

(** *** BufMgr::BufMgr *)

(** Modelled from the spec: the default constructor of [BufDesc] is in
    buffer.h, which is not among the sources; a descriptor
    starts unoccupied. The constructor of [BufMgr] then sets [frameNo]
    and [valid]. *)
Definition initial_desc (i : FrameId) : BufDesc :=
  with_valid false (with_frameNo i (Clear (mkBufDesc None 0 0 0 false false false))).

(** The members are those the constructor leaves; the outcome says whether
    [htsize] was computed within defined behaviour. *)
Definition BufMgr_new (bufs : Z) (d : Disk) : Outcome unit * St :=
  (match htsize bufs with Some _ => Ok tt | None => Undefined end,
   mkState bufs
           (initial_desc <$> seqZ 0 bufs)
           (replicate (Z.to_nat bufs) emptyPage)
           ∅
           (wrap32 (bufs - 1))
           d
           []).

(** *** BufMgr::advanceClock *)

Definition advanceClock : M unit := λ s,
  if decide (numBufs s = 0) then (Undefined, s)
  else (Ok tt, with_clock (wrap32 (clockHand s + 1) mod numBufs s) s).

(** *** BufMgr::allocBuf *)

(** One turn of [while (count <= numBufs)] per unit of fuel; [None] when
    the fuel is spent with the loop still running. *)
Fixpoint allocBuf_loop (fuel : nat) (count : Z) (s : St) : option (Outcome FrameId * St) :=
  if decide (count ≤ numBufs s) then
    match fuel with
    | O => None
    | S fuel' =>
      match advanceClock s with
      | (Ok _, s1) =>
        let hand := clockHand s1 in
        match frame_lookup (bufDescTable s1) hand with
        | None => Some (Undefined, s1)
        | Some d =>
          if valid d then
            if refbit d then
              allocBuf_loop fuel' count
                (with_descs (frame_update (bufDescTable s1) hand (with_refbit false d)) s1)
            else if decide (pinCnt d > 0) then
              allocBuf_loop fuel' (wrap32 (count + 1)) s1
            else if dirty d then
              Some ((f ← deref (file d);
                     pg ← get_page hand;
                     File_writePage f pg;;
                     hash_remove f (pageNo d);;
                     set_desc hand (with_dirty false d);;
                     ret hand) s1)
            else
              Some (Ok hand, s1)
          else
            Some (Ok hand, s1)
        end
      | (Throw e, s1) => Some (Throw e, s1)
      | (Undefined, s1) => Some (Undefined, s1)
      | (Diverges, s1) => Some (Diverges, s1)
      end
    end
  else Some (Throw BufferExceededException, s).

(** Enough fuel for every scan that ends: at most [numBufs] turns clear a
    reference bit and at most [numBufs + 1] turns count a pinned frame. *)
Definition allocBuf_fuel (s : St) : nat := Z.to_nat (2 * numBufs s + 1).

Definition allocBuf : M FrameId := λ s,
  match allocBuf_loop (allocBuf_fuel s) 0 s with
  | Some r => r
  | None => (Diverges, s)
  end.

(** *** BufMgr::readPage *)

(** The [Page*&] result is [&bufPool[frameNumber]]: the frame id. *)
Definition readPage (file : File) (pageNo : PageId) : M FrameId :=
  try_catch
    (frameNumber ← hash_lookup file pageNo;
     d ← get_desc frameNumber;
     n ← defined (pinCnt_result (pinCnt d + 1));
     set_desc frameNumber (with_pinCnt n d);;
     d ← get_desc frameNumber;
     set_desc frameNumber (with_refbit true d);;
     ret frameNumber)
    (λ e, bool_decide (e = HashNotFoundException))
    (frameNumber ← allocBuf;
     pg ← File_readPage file pageNo;
     set_page frameNumber pg;;
     hash_insert file pageNo frameNumber;;
     d ← get_desc frameNumber;
     set_desc frameNumber (Set_ file pageNo d);;
     ret frameNumber).

(** *** BufMgr::unPinPage *)

Definition unPinPage (file : File) (pageNo : PageId) (dirty_ : bool) : M unit :=
  try_catch
    (f ← hash_lookup file pageNo;
     d ← get_desc f;
     (if decide (pinCnt d = 0) then throw PageNotPinnedException else ret tt);;
     n ← defined (pinCnt_result (pinCnt d - 1));
     set_desc f (with_pinCnt n d);;
     if dirty_ then
       (d ← get_desc f; set_desc f (with_dirty true d))
     else ret tt)
    (λ e, bool_decide (e = HashNotFoundException))
    (ret tt).

(** *** BufMgr::allocPage *)

Definition allocPage (file : File) : M (PageId * FrameId) :=
  p ← File_allocatePage file;
  f ← allocBuf;
  set_page f p;;
  hash_insert file (page_number p) f;;
  d ← get_desc f;
  set_desc f (Set_ file (page_number p) d);;
  pg ← get_page f;
  ret (page_number pg, f).

(** *** BufMgr::flushFile *)

(** The body of the [for] loop at index [i]. [BufDesc frame =
    bufDescTable[i]] copies the descriptor: [frame.dirty = false] and
    [frame.Clear()] act on the copy, which goes out of scope at the end of
    the turn. *)
Definition flushFile_body (file_ : File) (i : FrameId) : M unit :=
  frame ← get_desc i;
  (if valid frame then ret tt else throw BadBufferException);;
  if decide (file frame = Some file_) then
    (if decide (pinCnt frame ≠ 0) then throw PagePinnedException else ret tt);;
    frame ← (if dirty frame then
               (pg ← get_page i;
                File_writePage file_ pg;;
                ret (with_dirty false frame))
             else ret frame);
    hash_remove file_ (pageNo frame);;
    let frame := Clear frame in
    ret tt
  else ret tt.

Fixpoint flushFile_loop (file_ : File) (idx : list FrameId) : M unit :=
  match idx with
  | [] => ret tt
  | i :: rest => flushFile_body file_ i;; flushFile_loop file_ rest
  end.

Definition flushFile (file_ : File) : M unit := λ s,
  flushFile_loop file_ (seqZ 0 (numBufs s)) s.

(** *** BufMgr::disposePage *)

Definition disposePage (file : File) (PageNo : PageId) : M unit :=
  try_catch
    (f ← hash_lookup file PageNo;
     hash_remove file PageNo;;
     d ← get_desc f;
     set_desc f (Clear d);;
     File_deletePage file PageNo)
    (λ _, true)
    (ret tt).

End BufMgr.

(** ** A file layer to run the manager on *)

(** Pages on disk, per file. Reading, writing or deleting a page that does
    not exist throws; allocation appends a page with the next number. *)
Definition SampleDisk : Type := list (File * Page).

Definition on_disk (f : File) (p : PageId) (x : File * Page) : bool :=
  bool_decide (x.1 = f) && bool_decide (page_number x.2 = p).

Definition sample_read (f : File) (p : PageId) (d : SampleDisk) : option Page :=
  snd <$> List.find (on_disk f p) d.
Definition sample_write (f : File) (pg : Page) (d : SampleDisk) : option SampleDisk :=
  match List.find (on_disk f (page_number pg)) d with
  | Some _ => Some (List.filter (λ x, negb (on_disk f (page_number pg) x)) d ++ [(f, pg)])
  | None => None
  end.
Definition sample_allocate (f : File) (d : SampleDisk) : option (Page * SampleDisk) :=
  let n := 1 + foldr Z.max 0 (page_number ∘ snd <$> d) in
  Some (mkPage n 0, d ++ [(f, mkPage n 0)]).
Definition sample_delete (f : File) (p : PageId) (d : SampleDisk) : option SampleDisk :=
  match List.find (on_disk f p) d with
  | Some _ => Some (List.filter (λ x, negb (on_disk f p x)) d)
  | None => None
  end.

Global Instance sample_layer : FileLayer SampleDisk := {
  file_readPage := sample_read;
  file_writePage := sample_write;
  file_allocatePage := sample_allocate;
  file_deletePage := sample_delete
}.

(** ** Vocabulary of the specification *)

Section Vocabulary.
Context {Disk : Type} `{FL : FileLayer Disk}.

Abbreviation St := (State Disk).

(** The arrays have [numBufs] entries and [numBufs] is a positive
    [uint32]. *)
Definition pool_wf (s : St) : Prop :=
  0 < numBufs s < UINT32_MODULUS ∧
  length (bufDescTable s) = Z.to_nat (numBufs s) ∧
  length (bufPool s) = Z.to_nat (numBufs s) ∧
  0 ≤ clockHand s < UINT32_MODULUS.

(** A turn of the replacement scan that does not end it changes at most
    a reference bit, from set to clear. *)
Definition same_but_refbit (d d' : BufDesc) : Prop :=
  file d' = file d ∧ pageNo d' = pageNo d ∧ frameNo d' = frameNo d ∧
  pinCnt d' = pinCnt d ∧ dirty d' = dirty d ∧ valid d' = valid d ∧
  (refbit d' = true → refbit d = true).

Definition scanned (s s1 : St) : Prop :=
  numBufs s1 = numBufs s ∧ bufPool s1 = bufPool s ∧
  hashTable s1 = hashTable s ∧ disk s1 = disk s ∧ io_log s1 = io_log s ∧
  Forall2 same_but_refbit (bufDescTable s) (bufDescTable s1).

(** What [allocBuf] does with a dirty victim, as one computation. *)
Definition write_back (hand : FrameId) (d : BufDesc) : M (Disk:=Disk) FrameId :=
  bind (deref (file d)) (λ f,
  bind (get_page hand) (λ pg,
  bind (File_writePage f pg) (λ _,
  bind (hash_remove f (pageNo d)) (λ _,
  bind (set_desc hand (with_dirty false d)) (λ _,
  ret hand))))).

(** Frames that hold a page and have a reference bit to lose. *)
Definition referenced (d : BufDesc) : bool := valid d && refbit d.
Definition refcount (ds : list BufDesc) : nat := length (filter (λ d, referenced d = true) ds).

Definition all_pinned (s : St) : Prop :=
  Forall (λ d, valid d = true ∧ pinCnt d > 0) (bufDescTable s).

(** File reads recorded in a log. *)
Definition is_read (e : IOEvent) : bool :=
  match e with EvRead _ _ => true | _ => false end.
Definition reads (log : list IOEvent) : nat := length (filter (λ e, is_read e = true) log).

(** The invariant of section 3: a valid frame is where the index says its
    page is. *)
Definition index_invariant (s : St) : Prop :=
  ∀ i d, frame_lookup (bufDescTable s) i = Some d → valid d = true →
    ∃ f, file d = Some f ∧ hashTable s !! (f, pageNo d) = Some i.

(** A call has completed when it has returned or thrown. *)
Definition completed {A} (r : Outcome A) : Prop :=
  match r with
  | Ok _ | Throw _ => True
  | Undefined | Diverges => False
  end.

(** States reached from a constructed pool through the public methods,
    whether the call returns or throws. *)
Inductive reachable : St → Prop :=
  | reach_new bufs d s :
      0 < bufs < UINT32_MODULUS → BufMgr_new bufs d = (Ok tt, s) → reachable s
  | reach_readPage s f p r s' :
      reachable s → readPage f p s = (r, s') → completed r → reachable s'
  | reach_allocPage s f r s' :
      reachable s → allocPage f s = (r, s') → completed r → reachable s'
  | reach_unPinPage s f p b r s' :
      reachable s → unPinPage f p b s = (r, s') → completed r → reachable s'
  | reach_flushFile s f r s' :
      reachable s → flushFile f s = (r, s') → completed r → reachable s'
  | reach_disposePage s f p r s' :
      reachable s → disposePage f p s = (r, s') → completed r → reachable s'.

(** A page is resident when a valid frame holds it. *)
Definition resident (s : St) (f : File) (p : PageId) : Prop :=
  ∃ i d, frame_lookup (bufDescTable s) i = Some d ∧
    valid d = true ∧ file d = Some f ∧ pageNo d = p.

(** Fetch the pages of a list in order. *)
Fixpoint fetch_all (pages : list (File * PageId)) : M (Disk:=Disk) unit :=
  match pages with
  | [] => ret tt
  | (f, p) :: rest => bind (readPage f p) (λ _, fetch_all rest)
  end.

(** The pool after the first [k] fetches into a fresh pool of [N] frames:
    frames below [k] hold pinned pages, the others are free, and the hand
    is on the last frame filled. *)
Definition filled (N : Z) (d0 : Disk) (k : nat) (s : St) : Prop :=
  numBufs s = N ∧ length (bufDescTable s) = Z.to_nat N ∧
  length (bufPool s) = Z.to_nat N ∧ disk s = d0 ∧
  clockHand s = (if decide (k = 0%nat) then N - 1 else Z.of_nat k - 1) ∧
  ∀ (i : nat) d, bufDescTable s !! i = Some d →
    ((i < k)%nat → valid d = true ∧ pinCnt d > 0) ∧
    ((k ≤ i)%nat → valid d = false).

End Vocabulary.

(** ** Concrete pools *)

(** A file layer that can only be read: writing, allocating and deleting
    throw. *)
Definition readonly_layer : FileLayer SampleDisk := {|
  file_readPage := sample_read;
  file_writePage := λ _ _ _, None;
  file_allocatePage := λ _ _, None;
  file_deletePage := λ _ _ _, None
|}.

(** File 1 with three pages. *)
Definition disk0 : SampleDisk :=
  [(1, mkPage 1 11); (1, mkPage 2 22); (1, mkPage 3 33)].

(** A fresh pool of one frame. *)
Definition pool1 : State SampleDisk := (BufMgr_new 1 disk0).2.

(** Page 1 fetched and still pinned. *)
Definition pool1_pinned : State SampleDisk := (readPage 1 1 pool1).2.

(** Page 1 pinned, after a fetch of page 2 has failed and swept the
    reference bit. *)
Definition pool1_swept : State SampleDisk := (readPage 1 2 pool1_pinned).2.

(** Page 1 fetched and unpinned, clean. *)
Definition pool1_clean : State SampleDisk := (unPinPage 1 1 false pool1_pinned).2.

(** Page 1 fetched and unpinned, dirty. *)
Definition pool1_dirty : State SampleDisk := (unPinPage 1 1 true pool1_pinned).2.

(** Two frames: page 1 dirty and unpinned in frame 0, frame 1 free. *)
Definition pool2_half : State SampleDisk :=
  (unPinPage 1 1 true (readPage 1 1 (BufMgr_new 2 disk0).2).2).2.

(** Two frames: page 1 dirty and unpinned in frame 0, page 2 pinned in
    frame 1. *)
Definition pool2_full : State SampleDisk := (readPage 1 2 pool2_half).2.

(** One frame: page 1 was fetched and unpinned clean, and a fetch of
    page 2 has taken its frame and still pins it. *)
Definition pool1_evicted : State SampleDisk := (readPage 1 2 pool1_clean).2.

(** One frame: page 1 fetched [n] times and never unpinned. *)
Definition pool1_hits (n : Z) : State SampleDisk :=
  with_descs [mkBufDesc (Some 1) 1 0 n false true true] pool1_pinned.

(** One frame, holding page 1 with as many pins as an [int] can count. *)
Definition pool1_saturated : State SampleDisk := pool1_hits INT_MAX.

(** Closed goals over concrete pools are settled by evaluation. *)
Ltac evaluated := vm_compute; repeat split; (reflexivity || discriminate).

(** ** Vocabulary of the further properties *)

Section MoreVocabulary.
Context {Disk : Type} `{FL : FileLayer Disk}.

Abbreviation St := (State Disk).

(** [advanceClock] called [k] times in a row. *)
Fixpoint advanceClock_times (k : nat) : M (Disk:=Disk) unit :=
  match k with
  | O => ret tt
  | S k' => bind advanceClock (λ _, advanceClock_times k')
  end.

(** What a descriptor of a pool in use satisfies: a valid frame has an
    owner, and the pin count is an [int] that has not gone below zero. *)
Definition desc_ok (d : BufDesc) : Prop :=
  (valid d = true → is_Some (file d)) ∧ 0 ≤ pinCnt d ≤ INT_MAX.

(** A pool on which no array access can go out of range: both arrays have
    [numBufs] entries, the hand and every frame id in the index are below
    [numBufs], and the descriptors are in order. *)
Definition pool_safe (s : St) : Prop :=
  0 < numBufs s < UINT32_MODULUS ∧
  length (bufDescTable s) = Z.to_nat (numBufs s) ∧
  length (bufPool s) = Z.to_nat (numBufs s) ∧
  0 ≤ clockHand s < numBufs s ∧
  (∀ key fr, hashTable s !! key = Some fr → 0 ≤ fr < numBufs s) ∧
  Forall desc_ok (bufDescTable s).

(** The public methods, as calls. *)
Inductive Call : Type :=
  | CallReadPage (f : File) (p : PageId)
  | CallAllocPage (f : File)
  | CallUnPinPage (f : File) (p : PageId) (dirty_ : bool)
  | CallFlushFile (f : File)
  | CallDisposePage (f : File) (p : PageId).

Definition forget {A} (r : Outcome A) : Outcome unit :=
  match r with
  | Ok _ => Ok tt
  | Throw e => Throw e
  | Undefined => Undefined
  | Diverges => Diverges
  end.

Definition run_call (c : Call) (s : St) : Outcome unit * St :=
  match c with
  | CallReadPage f p => let '(r, s') := readPage f p s in (forget r, s')
  | CallAllocPage f => let '(r, s') := allocPage f s in (forget r, s')
  | CallUnPinPage f p b => unPinPage f p b s
  | CallFlushFile f => flushFile f s
  | CallDisposePage f p => disposePage f p s
  end.

(** What a call that may evict leaves of a descriptor it does not hand
    out: everything but the reference bit, and the dirty bit of a frame
    that is not pinned. *)
Definition kept (d d' : BufDesc) : Prop :=
  file d' = file d ∧ pageNo d' = pageNo d ∧ frameNo d' = frameNo d ∧
  pinCnt d' = pinCnt d ∧ valid d' = valid d ∧
  (pinCnt d > 0 → dirty d' = dirty d).

(** A frame the scan can take at first sight: free, or holding a page
    that is neither pinned nor referenced. *)
Definition takeable (d : BufDesc) : Prop :=
  valid d = false ∨ (refbit d = false ∧ ¬ pinCnt d > 0).

(** The writes and the index removals of a flush, frame by frame. *)
Definition flush_write_of (f : File) (s : St) (i : FrameId) : list IOEvent :=
  match frame_lookup (bufDescTable s) i, frame_lookup (bufPool s) i with
  | Some d, Some pg =>
      if decide (file d = Some f) then if dirty d then [EvWrite f pg] else [] else []
  | _, _ => []
  end.
Definition flush_writes (f : File) (s : St) : list IOEvent :=
  concat (flush_write_of f s <$> seqZ 0 (numBufs s)).

Definition flush_key_of (f : File) (s : St) (i : FrameId) : list (File * PageId) :=
  match frame_lookup (bufDescTable s) i with
  | Some d => if decide (file d = Some f) then [(f, pageNo d)] else []
  | None => []
  end.
Definition flush_keys (f : File) (s : St) : list (File * PageId) :=
  concat (flush_key_of f s <$> seqZ 0 (numBufs s)).

(** Frame [i], which held [d], still holds the same page after a call:
    same owner, page number, validity and dirty bit, at least as many
    pins, and the same bytes. *)
Definition still_held (s s' : St) (i : FrameId) (d : BufDesc) : Prop :=
  ∃ d', frame_lookup (bufDescTable s') i = Some d' ∧
    file d' = file d ∧ pageNo d' = pageNo d ∧ valid d' = valid d ∧
    dirty d' = dirty d ∧ pinCnt d ≤ pinCnt d' ∧
    frame_lookup (bufPool s') i = frame_lookup (bufPool s) i.

(** Every frame but [j] holds a pinned page whose reference bit is
    clear. *)
Definition others_pinned_unreferenced (s : St) (j : FrameId) : Prop :=
  ∀ i d, frame_lookup (bufDescTable s) i = Some d → i ≠ j →
    valid d = true ∧ refbit d = false ∧ pinCnt d > 0.

(** Frames the hand passes before it is on frame [j]: it is on [j] after
    [hand_distance + 1] calls of [advanceClock]. *)
Definition hand_distance (s : St) (j : FrameId) : Z :=
  if decide (clockHand s < j) then j - clockHand s - 1
  else j + numBufs s - clockHand s - 1.

(** The pages of a list sit in frames 0, 1, 2, ... in the order of the
    list, each read once from disk [d0], pinned once and clean, and the
    log holds those reads and nothing else. *)
Definition loaded (d0 : Disk) (pages : list (File * PageId)) (s : St) : Prop :=
  io_log s = (λ key, EvRead key.1 key.2) <$> pages ∧
  ∀ (j : nat) f p, pages !! j = Some (f, p) →
    hashTable s !! (f, p) = Some (Z.of_nat j) ∧
    (∃ d, bufDescTable s !! j = Some d ∧ file d = Some f ∧ pageNo d = p ∧
       valid d = true ∧ pinCnt d = 1 ∧ dirty d = false) ∧
    ∃ pg, file_readPage f p d0 = Some pg ∧ bufPool s !! j = Some pg.

End MoreVocabulary.

Global Instance desc_ok_dec (d : BufDesc) : Decision (desc_ok d).
Proof. unfold desc_ok. apply _. Defined.

Global Instance pool_safe_dec {Disk : Type} (s : State Disk) : Decision (pool_safe s).
Proof.
  unfold pool_safe.
  change (∀ key fr, hashTable s !! key = Some fr → 0 ≤ fr < numBufs s)
    with (map_Forall (λ _ fr, 0 ≤ fr < numBufs s) (hashTable s)).
  apply _.
Defined.

(** Three frames, pages 1, 2 and 3 of file 1 fetched and pinned. *)
Definition pool3_pinned : State SampleDisk :=
  (fetch_all [(1, 1); (1, 2); (1, 3)] (BufMgr_new 3 disk0).2).2.

(** Then a fetch of a fourth page has failed and swept every reference
    bit, and page 1 has been fetched again and unpinned twice: frame 0 is
    not pinned and is referenced, frames 1 and 2 are pinned and not
    referenced, the hand is on frame 0. *)
Definition pool3_spare : State SampleDisk :=
  (unPinPage 1 1 false
     (unPinPage 1 1 false
        (readPage 1 1 (readPage 1 4 pool3_pinned).2).2).2).2.

(** Two frames: page 1 dirty in frame 0, page 2 clean in frame 1, neither
    pinned. *)
Definition pool2_unpinned : State SampleDisk := (unPinPage 1 2 false pool2_full).2.

(** * Proofs *)

Section Proofs.
Context {Disk : Type} `{FL : FileLayer Disk}.

Abbreviation St := (State Disk).
Implicit Types (s : St) (d : BufDesc) (i hand fr : FrameId).

(** ** Arrays *)

Lemma frame_lookup_Some {A} (l : list A) i x :
  frame_lookup l i = Some x ↔ 0 ≤ i ∧ l !! Z.to_nat i = Some x.
Proof. unfold frame_lookup. case_decide; intuition (done || lia). Qed.

Lemma frame_lookup_of_nat {A} (l : list A) (k : nat) :
  frame_lookup l (Z.of_nat k) = l !! k.
Proof. unfold frame_lookup. rewrite decide_True by lia. by rewrite Nat2Z.id. Qed.

Lemma frame_lookup_lt {A} (l : list A) i :
  0 ≤ i → (Z.to_nat i < length l)%nat → is_Some (frame_lookup l i).
Proof.
  intros Hi Hlt. unfold frame_lookup. rewrite decide_True by done.
  by apply lookup_lt_is_Some.
Qed.

Lemma frame_lookup_update_eq {A} (l : list A) i x y :
  frame_lookup l i = Some y → frame_lookup (frame_update l i x) i = Some x.
Proof.
  rewrite !frame_lookup_Some. intros [Hi Hl]. split; [done|].
  apply list_lookup_insert_eq. by eapply lookup_lt_Some.
Qed.

Lemma length_frame_update {A} (l : list A) i x :
  length (frame_update l i x) = length l.
Proof. apply length_insert. Qed.

(** ** The scan relation *)

Lemma same_but_refbit_refl d : same_but_refbit d d.
Proof. by repeat split. Qed.

Lemma same_but_refbit_trans d1 d2 d3 :
  same_but_refbit d1 d2 → same_but_refbit d2 d3 → same_but_refbit d1 d3.
Proof.
  intros (?&?&?&?&?&?&?) (?&?&?&?&?&?&?). repeat split; try congruence. auto.
Qed.

Lemma scanned_refl s : scanned s s.
Proof.
  repeat split. apply Forall2_same_length_lookup. split; [done|].
  intros ? ? ? ? ?. simplify_eq. apply same_but_refbit_refl.
Qed.

Lemma scanned_trans s1 s2 s3 : scanned s1 s2 → scanned s2 s3 → scanned s1 s3.
Proof.
  intros (?&?&?&?&?&H12) (?&?&?&?&?&H23). repeat split; try congruence.
  eapply Forall2_trans; [|done..]. apply same_but_refbit_trans.
Qed.

Lemma scanned_clock s c : scanned s (with_clock c s).
Proof. exact (scanned_refl s). Qed.

Lemma scanned_clear s i d :
  frame_lookup (bufDescTable s) i = Some d →
  scanned s (with_descs (frame_update (bufDescTable s) i (with_refbit false d)) s).
Proof.
  intros [Hi Hl]%frame_lookup_Some. repeat split; simpl.
  apply Forall2_same_length_lookup. split.
  { by rewrite length_frame_update. }
  intros j x y Hx Hy. unfold frame_update in Hy.
  destruct (decide (j = Z.to_nat i)) as [->|Hne].
  - rewrite list_lookup_insert_eq in Hy by (by eapply lookup_lt_Some).
    simplify_eq. by repeat split.
  - rewrite list_lookup_insert_ne in Hy by done. simplify_eq.
    apply same_but_refbit_refl.
Qed.

Lemma scanned_lookup s s1 i d1 :
  scanned s s1 → frame_lookup (bufDescTable s1) i = Some d1 →
  ∃ d, frame_lookup (bufDescTable s) i = Some d ∧ same_but_refbit d d1.
Proof.
  intros (_&_&_&_&_&HF) [Hi Hl]%frame_lookup_Some.
  destruct (Forall2_lookup_r _ _ _ _ _ HF Hl) as (d & Hd & Hrel).
  exists d. split; [|done]. by apply frame_lookup_Some.
Qed.

Lemma scanned_length s s1 :
  scanned s s1 → length (bufDescTable s1) = length (bufDescTable s).
Proof. intros (_&_&_&_&_&HF). symmetry. by eapply Forall2_length. Qed.

(** ** advanceClock *)

Lemma advanceClock_cases s :
  (numBufs s = 0 ∧ advanceClock s = (Undefined, s)) ∨
  (numBufs s ≠ 0 ∧
   advanceClock s = (Ok tt, with_clock (wrap32 (clockHand s + 1) mod numBufs s) s)).
Proof. unfold advanceClock. case_decide; naive_solver. Qed.

(** ** The replacement scan, turn by turn *)

(** How a scan that stops has stopped: the loop bound is passed, or the
    frame under the hand is free, or it is an unpinned, unreferenced
    frame, written back first when dirty. Everything before that only
    cleared reference bits. *)
Lemma allocBuf_loop_inv fuel : ∀ count s r s',
  allocBuf_loop fuel count s = Some (r, s') →
  ∃ s1, scanned s s1 ∧
    ((r = Throw BufferExceededException ∧ s' = s1) ∨
     (numBufs s = 0 ∧ r = Undefined ∧ s' = s1) ∨
     (numBufs s ≠ 0 ∧ (∃ c, clockHand s1 = c mod numBufs s) ∧
      ((frame_lookup (bufDescTable s1) (clockHand s1) = None ∧
        r = Undefined ∧ s' = s1) ∨
       ∃ d, frame_lookup (bufDescTable s1) (clockHand s1) = Some d ∧
         ((valid d = false ∧ r = Ok (clockHand s1) ∧ s' = s1) ∨
          (valid d = true ∧ refbit d = false ∧ ¬ pinCnt d > 0 ∧
           ((dirty d = false ∧ r = Ok (clockHand s1) ∧ s' = s1) ∨
            (dirty d = true ∧ (r, s') = write_back (clockHand s1) d s1))))))).
Proof.
  induction fuel as [|fuel IH]; intros count s r s' Hrun; simpl in Hrun.
  { case_decide; [done|]. injection Hrun as <- <-.
    exists s. split; [apply scanned_refl|by left]. }
  case_decide;
    [|injection Hrun as <- <-; exists s; split; [apply scanned_refl|by left]].
  destruct (advanceClock_cases s) as [[Hz Hadv]|[Hnz Hadv]]; rewrite Hadv in Hrun.
  { injection Hrun as <- <-. exists s. split; [apply scanned_refl|]. right; by left. }
  set (s1 := with_clock _ s) in *.
  assert (scanned s s1) as Hs1 by apply scanned_clock.
  assert (∃ c, clockHand s1 = c mod numBufs s) as Hc by (by eexists).
  destruct (frame_lookup (bufDescTable s1) (clockHand s1)) as [d|] eqn:Hd.
  2:{ injection Hrun as <- <-. exists s1. split; [done|].
      right; right. repeat split; [done..|]. by left. }
  destruct (valid d) eqn:Hv.
  2:{ injection Hrun as <- <-. exists s1. split; [done|].
      right; right. repeat split; [done..|]. right. exists d. split; [done|]. by left. }
  destruct (refbit d) eqn:Hr.
  { apply IH in Hrun as (s2 & Hs2 & Hfin). exists s2. split; [|done].
    eapply scanned_trans; [done|]. eapply scanned_trans; [|done].
    by apply scanned_clear. }
  case_decide as Hpin.
  { apply IH in Hrun as (s2 & Hs2 & Hfin). exists s2. split; [|done].
    by eapply scanned_trans. }
  exists s1. split; [done|]. right; right. repeat split; [done..|]. right.
  exists d. split; [done|]. right.
  repeat split; try done.
  destruct (dirty d) eqn:Hdirty; [right|left].
  - split; [done|]. by injection Hrun as <-.
  - by injection Hrun as <- <-.
Qed.

(** The five ways a write-back can go. *)
Lemma write_back_cases hand d s1 r s' :
  write_back hand d s1 = (r, s') →
  (file d = None ∧ r = Undefined ∧ s' = s1) ∨
  ∃ f, file d = Some f ∧
    ((frame_lookup (bufPool s1) hand = None ∧ r = Undefined ∧ s' = s1) ∨
     ∃ pg, frame_lookup (bufPool s1) hand = Some pg ∧
       ((file_writePage f pg (disk s1) = None ∧ r = Throw FileException ∧
         s' = with_event (EvWrite f pg) s1) ∨
        ∃ dk, file_writePage f pg (disk s1) = Some dk ∧
          ((hashTable s1 !! (f, pageNo d) = None ∧
            r = Throw HashNotFoundException ∧
            s' = with_disk dk (with_event (EvWrite f pg) s1)) ∨
           (is_Some (hashTable s1 !! (f, pageNo d)) ∧ r = Ok hand ∧
            s' = with_descs (frame_update (bufDescTable s1) hand (with_dirty false d))
                   (with_hash (delete (f, pageNo d) (hashTable s1))
                      (with_disk dk (with_event (EvWrite f pg) s1))))))).
Proof.
  unfold write_back, bind, deref, get_page, File_writePage, hash_remove, set_desc, ret.
  intros Hrun.
  destruct (file d) as [f|]; [|injection Hrun as <- <-; by left].
  right. exists f. split; [done|].
  destruct (frame_lookup (bufPool s1) hand) as [pg|]; [|injection Hrun as <- <-; by left].
  right. exists pg. split; [done|]. simpl in Hrun.
  destruct (file_writePage f pg (disk s1)) as [dk|]; simpl in Hrun;
    [|injection Hrun as <- <-; by left].
  right. exists dk. split; [done|].
  destruct (hashTable s1 !! (f, pageNo d)) as [fr0|] eqn:Hkey;
    injection Hrun as <- <-; [right|left]; by eauto.
Qed.

(** ** Termination of the scan *)

Lemma refcount_clear (ds : list BufDesc) (n : nat) d :
  ds !! n = Some d → referenced d = true →
  (refcount (<[n := with_refbit false d]> ds) + 1 = refcount ds)%nat.
Proof.
  unfold refcount. revert n. induction ds as [|x ds IH]; intros [|n] Hl Hr; simplify_eq/=.
  - rewrite !filter_cons.
    destruct (decide (referenced (with_refbit false d) = true)) as [Hc|_].
    { unfold referenced in Hc. simpl in Hc. by rewrite andb_false_r in Hc. }
    rewrite decide_True by done. simpl. lia.
  - rewrite !filter_cons. specialize (IH n Hl Hr).
    case_decide; simpl; lia.
Qed.

Lemma refcount_le (ds : list BufDesc) : (refcount ds ≤ length ds)%nat.
Proof. apply length_filter. Qed.

(** Each turn that does not end the scan clears one reference bit or
    counts one pinned frame, so the scan ends unless the counter can
    wrap before it passes [numBufs]. *)
Lemma allocBuf_loop_terminates fuel : ∀ count s,
  numBufs s + 1 < UINT32_MODULUS → 0 ≤ count →
  (refcount (bufDescTable s) + Z.to_nat (numBufs s + 1 - count) ≤ fuel)%nat →
  is_Some (allocBuf_loop fuel count s).
Proof.
  induction fuel as [|fuel IH]; intros count s Hbound Hcount Hfuel; simpl.
  { case_decide; [lia|done]. }
  case_decide as Hle; [|done].
  destruct (advanceClock_cases s) as [[Hz Hadv]|[Hnz Hadv]]; rewrite Hadv; [done|].
  set (s1 := with_clock _ s).
  destruct (frame_lookup (bufDescTable s1) (clockHand s1)) as [d|] eqn:Hd; [|done].
  destruct (valid d) eqn:Hv; [|done].
  destruct (refbit d) eqn:Hr.
  { apply IH; simpl; [done..|].
    apply frame_lookup_Some in Hd as [_ Hd].
    pose proof (refcount_clear (bufDescTable s) (Z.to_nat (clockHand s1)) d Hd) as Hc.
    unfold frame_update. unfold referenced in Hc. rewrite Hv, Hr in Hc.
    specialize (Hc eq_refl). subst s1. simpl in Hc. lia. }
  case_decide as Hpin; [|by destruct (dirty d)].
  assert (wrap32 (count + 1) = count + 1) as ->.
  { unfold wrap32. apply Z.mod_small. lia. }
  apply IH; simpl; [done|lia|lia].
Qed.

Lemma allocBuf_loop_mono fuel : ∀ fuel' count s res,
  (fuel ≤ fuel')%nat → allocBuf_loop fuel count s = Some res →
  allocBuf_loop fuel' count s = Some res.
Proof.
  induction fuel as [|fuel IH]; intros fuel' count s res Hle Hrun; simpl in Hrun.
  { case_decide; [done|]. destruct fuel'; simpl; by rewrite decide_False. }
  destruct fuel' as [|fuel']; [lia|]. simpl.
  case_decide; [|done].
  destruct (advanceClock s) as [[u| | |] s1]; [|done..].
  destruct (frame_lookup (bufDescTable s1) (clockHand s1)) as [d|]; [|done].
  destruct (valid d); [|done].
  destruct (refbit d); [apply IH; [lia|done]|].
  case_decide; [apply IH; [lia|done]|done].
Qed.

(** A scan that gives up has taken more than [numBufs - count] turns. *)
Lemma allocBuf_loop_exceeded_turns fuel : ∀ count s s',
  numBufs s + 1 < UINT32_MODULUS → 0 ≤ count →
  allocBuf_loop fuel count s = Some (Throw BufferExceededException, s') →
  numBufs s < Z.of_nat fuel + count.
Proof.
  induction fuel as [|fuel IH]; intros count s s' Hbound Hcount Hrun; simpl in Hrun.
  { case_decide; [done|lia]. }
  case_decide as Hle; [|lia].
  destruct (advanceClock_cases s) as [[Hz Hadv]|[Hnz Hadv]]; rewrite Hadv in Hrun; [done|].
  set (s1 := with_clock _ s) in *.
  destruct (frame_lookup (bufDescTable s1) (clockHand s1)) as [d|] eqn:Hd; [|done].
  destruct (valid d) eqn:Hv; [|done].
  destruct (refbit d) eqn:Hr.
  { apply IH in Hrun; simpl in *; [lia|done..]. }
  case_decide as Hpin.
  { assert (wrap32 (count + 1) = count + 1) as Hw.
    { unfold wrap32. apply Z.mod_small. lia. }
    rewrite Hw in Hrun. apply IH in Hrun; simpl in *; [lia|done|lia]. }
  destruct (dirty d); [|done].
  injection Hrun as Hrun.
  change (write_back (clockHand s1) d s1 = (Throw BufferExceededException, s')) in Hrun.
  apply write_back_cases in Hrun.
  destruct Hrun as [(_&?&_)|(f&_&[(_&?&_)|(pg&_&[(_&?&_)|(dk&_&[(_&?&_)|(_&?&_)])])])]; done.
Qed.

(** ** allocBuf *)

Lemma allocBuf_loop_of s r s' :
  allocBuf s = (r, s') → r ≠ Diverges →
  allocBuf_loop (allocBuf_fuel s) 0 s = Some (r, s').
Proof.
  unfold allocBuf. destruct (allocBuf_loop _ _ _) as [[r0 s0]|].
  - by intros [= <- <-] _.
  - by intros [= <- <-] ?.
Qed.

(** A frame handed out by [allocBuf] was free, or it held an unpinned
    page; the pool has changed only by cleared reference bits and, for a
    dirty victim, by its write-back. *)
Lemma allocBuf_Ok_inv s fr s' :
  allocBuf s = (Ok fr, s') →
  ∃ d d', frame_lookup (bufDescTable s) fr = Some d ∧
    frame_lookup (bufDescTable s') fr = Some d' ∧
    numBufs s' = numBufs s ∧ bufPool s' = bufPool s ∧
    length (bufDescTable s') = length (bufDescTable s) ∧
    ((valid d = false ∨ (¬ pinCnt d > 0 ∧ dirty d = false)) ∧
     same_but_refbit d d' ∧ hashTable s' = hashTable s ∧
     disk s' = disk s ∧ io_log s' = io_log s
     ∨
     valid d = true ∧ ¬ pinCnt d > 0 ∧ dirty d = true ∧
     same_but_refbit (with_dirty false d) d' ∧
     ∃ f pg dk, file d = Some f ∧ frame_lookup (bufPool s) fr = Some pg ∧
       file_writePage f pg (disk s) = Some dk ∧
       hashTable s' = delete (f, pageNo d) (hashTable s) ∧
       disk s' = dk ∧ io_log s' = io_log s ++ [EvWrite f pg]).
Proof.
  intros Hrun. apply allocBuf_loop_of in Hrun; [|done].
  apply allocBuf_loop_inv in Hrun as (s1 & Hs1 & Hfin).
  pose proof Hs1 as (Hn & Hp & Hh & Hdk & Hlog & HF).
  destruct Hfin as [[? _]|[(_&?&_)|(Hnz & _ & [(_&?&_)|(d1 & Hd1 & Hfin)])]]; [done..|].
  destruct (scanned_lookup _ _ _ _ Hs1 Hd1) as (d & Hd & Hrel).
  pose proof Hrel as (Hf1 & Hp1 & Hfn1 & Hpc1 & Hdt1 & Hv1 & Hr1).
  destruct Hfin as [(Hv & [= ->] & ->)|(Hv & Hr & Hpin & [(Hdt & [= ->] & ->)|(Hdt & Hwb)])].
  - exists d, d1. repeat split; try done; [by apply scanned_length|].
    left. repeat split; try done. left. congruence.
  - exists d, d1. repeat split; try done; [by apply scanned_length|].
    left. repeat split; try done. right. split; congruence.
  - symmetry in Hwb. apply write_back_cases in Hwb.
    destruct Hwb as [(_&?&_)|(f&Hf&[(_&?&_)|(pg&Hpg&[(_&?&_)|(dk&Hw&
                      [(_&?&_)|(_&[= ->]&->)])])])];
      try done.
    exists d, (with_dirty false d1). simpl.
    repeat split; try done.
    + by eapply frame_lookup_update_eq.
    + rewrite length_frame_update. by apply scanned_length.
    + right. repeat split; simpl; try congruence.
      exists f, pg, dk. repeat split; congruence.
Qed.

(** [allocBuf] returns or throws on every pool narrower than the counter:
    the fuel it is given is never the reason it stops, and more fuel
    changes nothing. *)
Lemma allocBuf_total s :
  (length (bufDescTable s) ≤ Z.to_nat (numBufs s))%nat →
  numBufs s + 1 < UINT32_MODULUS →
  ∃ r s', allocBuf s = (r, s') ∧ r ≠ Diverges ∧
    ∀ fuel, (allocBuf_fuel s ≤ fuel)%nat → allocBuf_loop fuel 0 s = Some (r, s').
Proof.
  intros Hlen Hbound.
  destruct (allocBuf_loop_terminates (allocBuf_fuel s) 0 s) as [[r s'] Hrun];
    [done|lia|..].
  { pose proof (refcount_le (bufDescTable s)). unfold allocBuf_fuel. lia. }
  exists r, s'. split; [|split].
  - unfold allocBuf. by rewrite Hrun.
  - apply allocBuf_loop_inv in Hrun as (s1 & _ & Hfin).
    destruct Hfin as [[-> _]|[(_ & -> & _)|(_ & _ & [(_ & -> & _)|(d & _ & Hfin)])]];
      [done..|].
    destruct Hfin as [(_ & -> & _)|(_ & _ & _ & [(_ & -> & _)|(_ & Hwb)])]; [done..|].
    symmetry in Hwb. apply write_back_cases in Hwb.
    destruct Hwb as [(_&->&_)|(f&_&[(_&->&_)|(pg&_&[(_&->&_)|(dk&_&[(_&->&_)|(_&->&_)])])])]; done.
  - intros fuel Hfuel. by eapply allocBuf_loop_mono.
Qed.


(** ** C9: write-back of the victim *)


(** ** C5: readPage *)

Lemma reads_app (l1 l2 : list IOEvent) : reads (l1 ++ l2) = (reads l1 + reads l2)%nat.
Proof. unfold reads. by rewrite filter_app, length_app. Qed.

Lemma pinCnt_result_Some z :
  INT_MIN ≤ z ≤ INT_MAX → pinCnt_result z = Some z.
Proof. intros Hz. unfold pinCnt_result, int_result. by rewrite decide_True. Qed.

Lemma pinCnt_result_None z :
  ¬ (INT_MIN ≤ z ≤ INT_MAX) → pinCnt_result z = None.
Proof. intros Hz. unfold pinCnt_result, int_result. by rewrite decide_False. Qed.

Lemma readPage_hit_run f p s fr d :
  hashTable s !! (f, p) = Some fr →
  frame_lookup (bufDescTable s) fr = Some d →
  readPage f p s =
    if decide (INT_MIN ≤ pinCnt d + 1 ≤ INT_MAX) then
      (Ok fr, with_descs (frame_update (bufDescTable s) fr
                            (with_refbit true (with_pinCnt (pinCnt d + 1) d))) s)
    else (Undefined, s).
Proof.
  intros Hh Hd.
  unfold readPage, try_catch, bind, hash_lookup, get_desc, defined, set_desc, ret.
  rewrite Hh, Hd. case_decide as Hz.
  - rewrite pinCnt_result_Some by done. simpl.
    rewrite (frame_lookup_update_eq _ _ _ _ Hd). simpl.
    unfold with_descs, frame_update. simpl. by rewrite list_insert_insert_eq.
  - by rewrite pinCnt_result_None.
Qed.

Lemma readPage_hit f p s fr d :
  hashTable s !! (f, p) = Some fr →
  frame_lookup (bufDescTable s) fr = Some d →
  INT_MIN ≤ pinCnt d + 1 ≤ INT_MAX →
  readPage f p s =
    (Ok fr, with_descs (frame_update (bufDescTable s) fr
                          (with_refbit true (with_pinCnt (pinCnt d + 1) d))) s).
Proof.
  intros Hh Hd Hz. rewrite (readPage_hit_run f p s fr d) by done.
  by rewrite decide_True.
Qed.

Lemma readPage_miss_run f p s :
  hashTable s !! (f, p) = None →
  readPage f p s =
    bind allocBuf (λ fr,
    bind (File_readPage f p) (λ pg,
    bind (set_page fr pg) (λ _,
    bind (hash_insert f p fr) (λ _,
    bind (get_desc fr) (λ d,
    bind (set_desc fr (Set_ f p d)) (λ _, ret fr)))))) s.
Proof.
  intros Hh. unfold readPage, try_catch. unfold bind at 1, hash_lookup at 1.
  by rewrite Hh.
Qed.

Lemma readPage_miss f p s fr s' :
  hashTable s !! (f, p) = None →
  readPage f p s = (Ok fr, s') →
  ∃ sa pg d0,
    allocBuf s = (Ok fr, sa) ∧
    file_readPage f p (disk sa) = Some pg ∧
    frame_lookup (bufDescTable sa) fr = Some d0 ∧
    s' = with_descs (frame_update (bufDescTable sa) fr (Set_ f p d0))
           (with_hash (<[(f, p) := fr]> (hashTable sa))
              (with_pool (frame_update (bufPool sa) fr pg)
                 (with_event (EvRead f p) sa))).
Proof.
  intros Hh. rewrite readPage_miss_run by done.
  unfold bind, File_readPage, set_page, hash_insert, get_desc, set_desc, ret.
  destruct (allocBuf s) as [[fr0| | |] sa]; [|done..].
  destruct (file_readPage f p (disk sa)) as [pg|] eqn:Hread; [|done]. simpl.
  destruct (frame_lookup (bufPool sa) fr0) as [pg0|]; [|done]. simpl.
  destruct (frame_lookup (bufDescTable sa) fr0) as [d0|] eqn:Hd0; [|done].
  intros [= <- <-]. by exists sa, pg, d0.
Qed.

(** What the log gains in a replacement scan, however it ends: at most
    the one write-back, and no read. *)
Lemma allocBuf_log s r s' :
  allocBuf s = (r, s') →
  ∃ w, io_log s' = io_log s ++ w ∧ reads w = 0%nat ∧ (length w ≤ 1)%nat.
Proof.
  intros Hrun.
  assert (io_log s' = io_log s ∨ ∃ f pg, io_log s' = io_log s ++ [EvWrite f pg])
    as [Hlog|(f & pg & Hlog)];
    [|exists []; rewrite app_nil_r; repeat split; [done..|simpl; lia]
     |exists [EvWrite f pg]; repeat split; [done..|simpl; lia]].
  unfold allocBuf in Hrun.
  destruct (allocBuf_loop _ _ _) as [[r0 s0]|] eqn:Hloop;
    [|injection Hrun as _ <-; by left].
  injection Hrun as -> ->.
  apply allocBuf_loop_inv in Hloop as (s1 & Hs1 & Hfin).
  pose proof Hs1 as (_ & _ & _ & _ & Hlog & _).
  destruct Hfin as [[_ ->]|[(_&_&->)|(_ & _ & [(_&_&->)|(d1 & _ & Hfin)])]];
    [by left..|].
  destruct Hfin as [(_ & _ & ->)|(_ & _ & _ & [(_ & _ & ->)|(_ & Hwb)])]; [by left..|].
  symmetry in Hwb. apply write_back_cases in Hwb.
  destruct Hwb as [(_&_&->)|(f&_&[(_&_&->)|(pg&_&[(_&_&->)|(dk&_&
                    [(_&_&->)|(_&_&->)])])])]; simpl; rewrite ?Hlog;
    [by left..|right; by exists f, pg|right; by exists f, pg|right; by exists f, pg].
Qed.

(** C5. A fetch that finds the key in the index, with the pin count of
    the frame below INT_MAX, returns the frame the index names, with its
    pin count one higher and its reference bit set, and calls nothing on
    the file. A fetch that misses reads the file exactly once if the
    replacement scan returns a frame, and not at all if it does not: the
    fetch then ends as the scan did. When the read succeeds the fetch
    returns the frame of the scan, which holds the page read, is indexed
    under the key, and has the descriptor of a fresh page: one pin,
    referenced, clean, owned by the file under the page number, valid.
    When the read throws, so does the fetch. *)
Theorem readPage_hit_and_miss f p s :
  (∀ fr d, hashTable s !! (f, p) = Some fr →
     frame_lookup (bufDescTable s) fr = Some d →
     INT_MIN ≤ pinCnt d < INT_MAX →
     ∃ s' d', readPage f p s = (Ok fr, s') ∧
       frame_lookup (bufDescTable s') fr = Some d' ∧
       pinCnt d' = pinCnt d + 1 ∧ refbit d' = true ∧
       file d' = file d ∧ pageNo d' = pageNo d ∧ dirty d' = dirty d ∧
       valid d' = valid d ∧
       hashTable s' = hashTable s ∧ io_log s' = io_log s ∧ disk s' = disk s) ∧
  (∀ fr sa pg, hashTable s !! (f, p) = None → allocBuf s = (Ok fr, sa) →
     is_Some (frame_lookup (bufPool sa) fr) →
     file_readPage f p (disk sa) = Some pg →
     ∃ s' d', readPage f p s = (Ok fr, s') ∧
       (∃ w, io_log s' = io_log s ++ w ++ [EvRead f p] ∧ reads w = 0%nat) ∧
       reads (io_log s') = S (reads (io_log s)) ∧
       hashTable s' !! (f, p) = Some fr ∧
       frame_lookup (bufPool s') fr = Some pg ∧
       frame_lookup (bufDescTable s') fr = Some d' ∧
       pinCnt d' = 1 ∧ refbit d' = true ∧ dirty d' = false ∧
       file d' = Some f ∧ pageNo d' = p ∧ valid d' = true) ∧
  (∀ fr sa, hashTable s !! (f, p) = None → allocBuf s = (Ok fr, sa) →
     file_readPage f p (disk sa) = None →
     readPage f p s = (Throw FileException, with_event (EvRead f p) sa) ∧
     reads (io_log (with_event (EvRead f p) sa)) = S (reads (io_log s))) ∧
  (∀ r sa, hashTable s !! (f, p) = None → allocBuf s = (r, sa) →
     (∀ fr, r ≠ Ok fr) →
     readPage f p s = (r, sa) ∧ reads (io_log sa) = reads (io_log s)).
Proof.
  split; [|split; [|split]].
  - intros fr d Hh Hd Hz. eexists _, _.
    split; [apply (readPage_hit f p s fr d); [done..|lia]|].
    simpl. split; [by eapply frame_lookup_update_eq|done].
  - intros fr sa pg Hh Halloc [pg0 Hpg0] Hread.
    destruct (allocBuf_log _ _ _ Halloc) as (w & Hw & Hw0 & _).
    pose proof Halloc as (d & d0 & _ & Hd0 & _)%allocBuf_Ok_inv.
    eexists _, (Set_ f p d0). split.
    { rewrite readPage_miss_run by done. unfold bind at 1. rewrite Halloc.
      unfold bind, File_readPage, set_page, hash_insert, get_desc, set_desc, ret.
      rewrite Hread. simpl. rewrite Hpg0. simpl. by rewrite Hd0. }
    simpl. rewrite Hw. repeat split.
    + exists w. by rewrite <- app_assoc.
    + rewrite !reads_app, Hw0. unfold reads. simpl. lia.
    + apply lookup_insert_eq.
    + by eapply frame_lookup_update_eq.
    + by eapply frame_lookup_update_eq.
  - intros fr sa Hh Halloc Hread.
    destruct (allocBuf_log _ _ _ Halloc) as (w & Hw & Hw0 & _). split.
    + rewrite readPage_miss_run by done. unfold bind at 1. rewrite Halloc.
      unfold bind, File_readPage. by rewrite Hread.
    + simpl. rewrite Hw, !reads_app, Hw0. unfold reads. simpl. lia.
  - intros r sa Hh Halloc Hr.
    destruct (allocBuf_log _ _ _ Halloc) as (w & Hw & Hw0 & _). split.
    + rewrite readPage_miss_run by done. unfold bind at 1. rewrite Halloc.
      destruct r as [fr| | |]; [by destruct (Hr fr)|done..].
    + rewrite Hw, reads_app, Hw0. lia.
Qed.

(** ** unPinPage *)

Lemma unPinPage_absent f p b s :
  hashTable s !! (f, p) = None → unPinPage f p b s = (Ok tt, s).
Proof.
  intros Hh. unfold unPinPage, try_catch, bind, hash_lookup. by rewrite Hh.
Qed.

(** What [unPinPage] does when the index has the key: the frame the index
    names is unpinned, whatever page it holds. *)
Lemma unPinPage_run f p b s fr d :
  hashTable s !! (f, p) = Some fr →
  frame_lookup (bufDescTable s) fr = Some d →
  unPinPage f p b s =
    if decide (pinCnt d = 0) then (Throw PageNotPinnedException, s)
    else if decide (INT_MIN ≤ pinCnt d - 1 ≤ INT_MAX) then
      (Ok tt, with_descs (frame_update (bufDescTable s) fr
                 (with_dirty (b || dirty d) (with_pinCnt (pinCnt d - 1) d))) s)
    else (Undefined, s).
Proof.
  intros Hh Hd.
  unfold unPinPage, try_catch, bind, hash_lookup, get_desc, defined, set_desc, ret, throw.
  rewrite Hh, Hd. case_decide; [done|]. simpl. case_decide as Hz.
  - rewrite pinCnt_result_Some by done. simpl.
    destruct b; simpl.
    + rewrite (frame_lookup_update_eq _ _ _ _ Hd). simpl.
      unfold with_descs, frame_update. simpl. by rewrite list_insert_insert_eq.
    + by destruct d.
  - by rewrite pinCnt_result_None.
Qed.

(** ** C8 and C10: disposePage *)

(** C8. When the page is not in the index, [disposePage] returns without
    calling [deletePage]: nothing is logged and the disk is as it was. *)
Theorem disposePage_absent_no_delete f p s :
  hashTable s !! (f, p) = None → disposePage f p s = (Ok tt, s).
Proof.
  intros Hh. unfold disposePage, try_catch, bind, hash_lookup. by rewrite Hh.
Qed.

Lemma disposePage_resident f p s fr d :
  hashTable s !! (f, p) = Some fr →
  frame_lookup (bufDescTable s) fr = Some d →
  ∃ s', disposePage f p s = (Ok tt, s') ∧
    hashTable s' = delete (f, p) (hashTable s) ∧
    bufDescTable s' = frame_update (bufDescTable s) fr (Clear d) ∧
    io_log s' = io_log s ++ [EvDelete f p] ∧
    disk s' = default (disk s) (file_deletePage f p (disk s)).
Proof.
  intros Hh Hd.
  unfold disposePage, try_catch, bind, hash_lookup, hash_remove, get_desc, set_desc,
    File_deletePage, ret.
  rewrite Hh. simpl. rewrite Hh. simpl. rewrite Hd. simpl.
  destruct (file_deletePage f p (disk s)) as [dk|]; simpl; by eexists.
Qed.

(** C10. When the page is resident and [deletePage] throws, the call
    still returns normally, and the index entry stays removed and the
    descriptor stays cleared. *)
Theorem disposePage_keeps_pool_changes_on_delete_failure f p s fr d :
  hashTable s !! (f, p) = Some fr →
  frame_lookup (bufDescTable s) fr = Some d →
  file_deletePage f p (disk s) = None →
  ∃ s' d', disposePage f p s = (Ok tt, s') ∧
    hashTable s' !! (f, p) = None ∧
    frame_lookup (bufDescTable s') fr = Some d' ∧
    d' = Clear d ∧ valid d' = false ∧ file d' = None ∧
    io_log s' = io_log s ++ [EvDelete f p] ∧ disk s' = disk s.
Proof.
  intros Hh Hd Hdel.
  destruct (disposePage_resident f p s fr d Hh Hd) as (s' & Hrun & Hh' & Hd' & Hlog & Hdk).
  exists s', (Clear d). rewrite Hdel in Hdk. repeat split; try done.
  - rewrite Hh'. apply lookup_delete_eq.
  - rewrite Hd'. by eapply frame_lookup_update_eq.
Qed.

(** ** flushFile *)

(** One turn of the scan in [flushFile]. *)
Lemma flushFile_body_cases f i s r s' :
  flushFile_body f i s = (r, s') →
  (frame_lookup (bufDescTable s) i = None ∧ r = Undefined ∧ s' = s) ∨
  ∃ d, frame_lookup (bufDescTable s) i = Some d ∧
    ((valid d = false ∧ r = Throw BadBufferException ∧ s' = s) ∨
     (valid d = true ∧ file d ≠ Some f ∧ r = Ok tt ∧ s' = s) ∨
     (valid d = true ∧ file d = Some f ∧ pinCnt d ≠ 0 ∧
      r = Throw PagePinnedException ∧ s' = s) ∨
     (valid d = true ∧ file d = Some f ∧ pinCnt d = 0 ∧ dirty d = false ∧
      ((hashTable s !! (f, pageNo d) = None ∧
        r = Throw HashNotFoundException ∧ s' = s) ∨
       (is_Some (hashTable s !! (f, pageNo d)) ∧
        r = Ok tt ∧ s' = with_hash (delete (f, pageNo d) (hashTable s)) s))) ∨
     (valid d = true ∧ file d = Some f ∧ pinCnt d = 0 ∧ dirty d = true ∧
      ((frame_lookup (bufPool s) i = None ∧ r = Undefined ∧ s' = s) ∨
       ∃ pg, frame_lookup (bufPool s) i = Some pg ∧
         ((file_writePage f pg (disk s) = None ∧ r = Throw FileException ∧
           s' = with_event (EvWrite f pg) s) ∨
          ∃ dk, file_writePage f pg (disk s) = Some dk ∧
            ((hashTable s !! (f, pageNo d) = None ∧
              r = Throw HashNotFoundException ∧
              s' = with_disk dk (with_event (EvWrite f pg) s)) ∨
             (is_Some (hashTable s !! (f, pageNo d)) ∧ r = Ok tt ∧
              s' = with_hash (delete (f, pageNo d) (hashTable s))
                     (with_disk dk (with_event (EvWrite f pg) s)))))))).
Proof.
  unfold flushFile_body, bind, get_desc, get_page, File_writePage, hash_remove, ret, throw.
  intros Hrun.
  destruct (frame_lookup (bufDescTable s) i) as [d|]; [|injection Hrun as <- <-; by left].
  right. exists d. split; [done|].
  destruct (valid d); [|injection Hrun as <- <-; by left].
  right. case_decide as Hown; [|injection Hrun as <- <-; by left].
  right. case_decide as Hpin; [injection Hrun as <- <-; by left|].
  assert (pinCnt d = 0) by lia.
  right. destruct (dirty d); [right|left].
  - repeat split; try done.
    destruct (frame_lookup (bufPool s) i) as [pg|]; [|injection Hrun as <- <-; by left].
    right. exists pg. split; [done|]. simpl in Hrun.
    destruct (file_writePage f pg (disk s)) as [dk|]; simpl in Hrun;
      [|injection Hrun as <- <-; by left].
    right. exists dk. split; [done|].
    destruct (hashTable s !! (f, pageNo d)) as [fr0|];
      injection Hrun as <- <-; [right|left]; by eauto.
  - repeat split; try done.
    destruct (hashTable s !! (f, pageNo d)) as [fr0|];
      injection Hrun as <- <-; [right|left]; by eauto.
Qed.

Lemma bind_assoc {A B C} (m : M A) (k : A → M B) (h : B → M C) (s : St) :
  bind (bind m k) h s = bind m (λ a, bind (k a) h) s.
Proof. unfold bind. by destruct (m s) as [[]]. Qed.

Lemma bind_ext {A B} (m : M A) (k k' : A → M B) (s : St) :
  (∀ a s1, k a s1 = k' a s1) → bind m k s = bind m k' s.
Proof. intros Hk. unfold bind. by destruct (m s) as [[]]. Qed.

Lemma flushFile_loop_app f idx1 : ∀ idx2 s,
  flushFile_loop f (idx1 ++ idx2) s =
  bind (flushFile_loop f idx1) (λ _, flushFile_loop f idx2) s.
Proof.
  induction idx1 as [|i idx1 IH]; intros idx2 s; [done|].
  simpl. rewrite bind_assoc. apply bind_ext. intros _ s1. apply IH.
Qed.

(** A scan that went through a run of frames found each of them valid and
    those of the file unpinned; it wrote the dirty ones, took their keys
    out of the index, and left the two arrays alone. *)
Lemma flushFile_loop_Ok f idx : ∀ s s',
  flushFile_loop f idx s = (Ok tt, s') →
  bufDescTable s' = bufDescTable s ∧ bufPool s' = bufPool s ∧
  numBufs s' = numBufs s ∧ clockHand s' = clockHand s ∧
  (∀ key, hashTable s !! key = None → hashTable s' !! key = None) ∧
  (∀ key fr, key.1 ≠ f → hashTable s !! key = Some fr →
             hashTable s' !! key = Some fr) ∧
  (∀ e, e ∈ io_log s → e ∈ io_log s') ∧
  ∀ i, i ∈ idx →
    ∃ d, frame_lookup (bufDescTable s) i = Some d ∧ valid d = true ∧
      (file d = Some f →
         pinCnt d = 0 ∧ hashTable s' !! (f, pageNo d) = None ∧
         (dirty d = true →
            ∃ pg, frame_lookup (bufPool s) i = Some pg ∧ EvWrite f pg ∈ io_log s')).
Proof.
  induction idx as [|i idx IH]; intros s s' Hrun; simpl in Hrun.
  { injection Hrun as <-. repeat split; try done. intros i Hi. by apply elem_of_nil in Hi. }
  unfold bind in Hrun.
  destruct (flushFile_body f i s) as [[[]| | |] s1] eqn:Hbody; [|done..].
  apply IH in Hrun as (Hds & Hpl & Hn & Hc & Hnone & Hother & Hlog & Hidx).
  apply flushFile_body_cases in Hbody.
  destruct Hbody as [(_ & ? & _)|(d & Hd & Hcase)]; [done|].
  assert (bufDescTable s1 = bufDescTable s ∧ bufPool s1 = bufPool s ∧
          numBufs s1 = numBufs s ∧ clockHand s1 = clockHand s ∧
          (∀ key, hashTable s !! key = None → hashTable s1 !! key = None) ∧
          (∀ key fr, key.1 ≠ f → hashTable s !! key = Some fr →
                     hashTable s1 !! key = Some fr) ∧
          (∀ e, e ∈ io_log s → e ∈ io_log s1) ∧
          valid d = true ∧
          (file d = Some f →
             pinCnt d = 0 ∧ hashTable s1 !! (f, pageNo d) = None ∧
             (dirty d = true →
                ∃ pg, frame_lookup (bufPool s) i = Some pg ∧ EvWrite f pg ∈ io_log s1)))
    as (Hds1 & Hpl1 & Hn1 & Hc1 & Hnone1 & Hother1 & Hlog1 & Hv & Hown).
  { destruct Hcase as [(_ & ? & _)|[(Hv & Hno & _ & ->)|[(_ & _ & _ & ? & _)|
      [(Hv & Hf & Hpin & Hdt & [(_ & ? & _)|(Hkey & _ & ->)])
      |(Hv & Hf & Hpin & Hdt & Hw)]]]]; try done.
    - repeat split; try done.
      + intros key Hk. simpl. rewrite lookup_delete_None. by right.
      + intros key fr Hk Hfr. simpl. rewrite lookup_delete_ne; [done|].
        intros <-. by apply Hk.
      + simpl. apply lookup_delete_eq.
      + congruence.
    - destruct Hw as [(_ & ? & _)|(pg & Hpg & [(_ & ? & _)|(dk & Hwr &
                        [(_ & ? & _)|(Hkey & _ & ->)])])]; try done.
      repeat split; try done.
      + intros key Hk. simpl. rewrite lookup_delete_None. by right.
      + intros key fr Hk Hfr. simpl. rewrite lookup_delete_ne; [done|].
        intros <-. by apply Hk.
      + intros e He. simpl. apply elem_of_app. by left.
      + simpl. apply lookup_delete_eq.
      + intros _. exists pg. split; [done|]. simpl. apply elem_of_app. right.
        by apply list_elem_of_singleton. }
  repeat split; try congruence; [auto..|].
  intros j Hj. apply elem_of_cons in Hj as [->|Hj].
  - exists d. split; [done|]. split; [done|]. intros Hf.
    destruct (Hown Hf) as (Hp0 & Hh0 & Hwr).
    split; [done|]. split; [by apply Hnone|].
    intros Hdt. destruct (Hwr Hdt) as (pg & Hpg & He).
    exists pg. split; [done|]. by apply Hlog.
  - destruct (Hidx j Hj) as (dj & Hdj & Hvj & Hownj).
    exists dj. rewrite Hds1 in Hdj. split; [done|]. split; [done|]. intros Hf.
    destruct (Hownj Hf) as (Hp0 & Hh0 & Hwr). rewrite Hpl1 in Hwr. done.
Qed.

(** A flush that succeeds leaves every descriptor as it found it. *)
Lemma flushFile_keeps_descriptors f s s' :
  flushFile f s = (Ok tt, s') → bufDescTable s' = bufDescTable s.
Proof. intros Hrun. by apply flushFile_loop_Ok in Hrun as (? & _). Qed.

(** C7. The scan of [flushFile] stops at the first frame, in frame
    order, that is invalid (BadBuffer, whoever owns it) or that belongs to
    the file and is pinned (PagePinned). The state it leaves is the one
    the scan of the frames before had produced: their keys are out of the
    index and their dirty pages are written. A pool with an invalid
    frame, or with a pinned frame of the file, is never flushed
    successfully. *)
Theorem flushFile_fails_without_rollback f s :
  (∀ i d s1, 0 ≤ i < numBufs s →
     frame_lookup (bufDescTable s) i = Some d →
     flushFile_loop f (seqZ 0 i) s = (Ok tt, s1) →
     (valid d = false → flushFile f s = (Throw BadBufferException, s1)) ∧
     (valid d = true → file d = Some f → pinCnt d ≠ 0 →
        flushFile f s = (Throw PagePinnedException, s1)) ∧
     (∀ j dj, 0 ≤ j < i → frame_lookup (bufDescTable s) j = Some dj →
        file dj = Some f →
        hashTable s1 !! (f, pageNo dj) = None ∧
        (dirty dj = true →
           ∃ pg, frame_lookup (bufPool s) j = Some pg ∧ EvWrite f pg ∈ io_log s1))) ∧
  (∀ i d, 0 ≤ i < numBufs s → frame_lookup (bufDescTable s) i = Some d →
     valid d = false ∨ (file d = Some f ∧ pinCnt d ≠ 0) →
     ∀ s', flushFile f s ≠ (Ok tt, s')).
Proof.
  split.
  - intros i d s1 Hi Hd Hpre.
    assert (seqZ 0 (numBufs s) = seqZ 0 i ++ i :: seqZ (i + 1) (numBufs s - i - 1)) as Hsplit.
    { replace (numBufs s) with (i + (1 + (numBufs s - i - 1))) at 1 by lia.
      rewrite seqZ_app by lia. rewrite (seqZ_app (0 + i) 1) by lia.
      by rewrite !Z.add_0_l. }
    pose proof (flushFile_loop_Ok _ _ _ _ Hpre) as (Hds & Hpl & _ & _ & _ & _ & _ & Hidx).
    assert (∀ r, flushFile_body f i s1 = (Throw r, s1) →
                 flushFile f s = (Throw r, s1)) as Hstop.
    { intros r Hbody. unfold flushFile. rewrite Hsplit, flushFile_loop_app.
      unfold bind at 1. rewrite Hpre. simpl. unfold bind at 1. by rewrite Hbody. }
    split; [|split].
    + intros Hv. apply Hstop.
      unfold flushFile_body, bind, get_desc, ret, throw. by rewrite Hds, Hd, Hv.
    + intros Hv Hf Hpin. apply Hstop.
      unfold flushFile_body, bind, get_desc, ret, throw. rewrite Hds, Hd, Hv.
      rewrite decide_True by done. by rewrite decide_True.
    + intros j dj Hj Hdj Hf.
      destruct (Hidx j) as (dj' & Hdj' & _ & Hown); [apply elem_of_seqZ; lia|].
      rewrite Hdj in Hdj'. injection Hdj' as <-.
      by destruct (Hown Hf) as (_ & ? & ?).
  - intros i d Hi Hd Hbad s' Hrun. unfold flushFile in Hrun.
    apply flushFile_loop_Ok in Hrun as (_ & _ & _ & _ & _ & _ & _ & Hidx).
    destruct (Hidx i) as (d' & Hd' & Hv & Hown); [apply elem_of_seqZ; lia|].
    rewrite Hd in Hd'. injection Hd' as <-.
    destruct Hbad as [?|[Hf Hpin]]; [congruence|].
    by destruct (Hown Hf) as [? _].
Qed.

(** ** C4: an exhausted pool *)

Lemma allocBuf_all_pinned s :
  pool_wf s → numBufs s + 1 < UINT32_MODULUS → all_pinned s →
  ∃ s', allocBuf_loop (allocBuf_fuel s) 0 s = Some (Throw BufferExceededException, s').
Proof.
  intros (Hn & Hlen & _ & _) Hbound Hpinned.
  destruct (allocBuf_loop_terminates (allocBuf_fuel s) 0 s) as [[r s'] Hrun];
    [done|lia|..].
  { pose proof (refcount_le (bufDescTable s)). unfold allocBuf_fuel. lia. }
  exists s'. rewrite Hrun. f_equal. f_equal.
  apply allocBuf_loop_inv in Hrun as (s1 & Hs1 & Hfin).
  destruct Hfin as [[? _]|[(?&_&_)|(Hnz & [c Hc] & [(Hnone&_&_)|(d1 & Hd1 & Hfin)])]];
    [done|lia|..].
  - exfalso. destruct (frame_lookup_lt (bufDescTable s1) (clockHand s1)) as [d Hd].
    + rewrite Hc. apply Z.mod_pos_bound. lia.
    + rewrite (scanned_length _ _ Hs1), Hlen, Hc.
      pose proof (Z.mod_pos_bound c (numBufs s)). lia.
    + congruence.
  - exfalso. destruct (scanned_lookup _ _ _ _ Hs1 Hd1) as (d & Hd & Hrel).
    destruct Hrel as (_ & _ & _ & Hpc & _ & Hv & _).
    apply frame_lookup_Some in Hd as [_ Hd].
    unfold all_pinned in Hpinned. rewrite Forall_lookup in Hpinned.
    destruct (Hpinned _ _ Hd) as [Hvd Hpd].
    destruct Hfin as [(Hv1 & _)|(_ & _ & Hp1 & _)]; [congruence|].
    apply Hp1. by rewrite Hpc.
Qed.

Lemma allocBuf_all_pinned_turns s fuel :
  pool_wf s → numBufs s + 1 < UINT32_MODULUS → all_pinned s →
  (fuel ≤ Z.to_nat (numBufs s))%nat → allocBuf_loop fuel 0 s = None.
Proof.
  intros Hwf Hbound Hpinned Hfuel.
  destruct (allocBuf_all_pinned s Hwf Hbound Hpinned) as [s' Hfull].
  destruct (allocBuf_loop fuel 0 s) as [[r s'']|] eqn:Hrun; [|done].
  exfalso.
  assert (fuel ≤ allocBuf_fuel s)%nat as Hle by (unfold allocBuf_fuel; lia).
  pose proof (allocBuf_loop_mono _ _ _ _ _ Hle Hrun) as Hsame.
  rewrite Hfull in Hsame. injection Hsame as <- <-.
  destruct Hwf as (Hn & _).
  apply allocBuf_loop_exceeded_turns in Hrun; [lia|done|lia].
Qed.

Lemma readPage_all_pinned f p s :
  pool_wf s → numBufs s + 1 < UINT32_MODULUS → all_pinned s →
  hashTable s !! (f, p) = None →
  ∃ s', readPage f p s = (Throw BufferExceededException, s').
Proof.
  intros Hwf Hbound Hpinned Hh.
  destruct (allocBuf_all_pinned s Hwf Hbound Hpinned) as [s' Hfull].
  exists s'. unfold readPage, try_catch. unfold bind at 1, hash_lookup at 1.
  rewrite Hh. simpl. unfold bind at 1, allocBuf. by rewrite Hfull.
Qed.

(** Filling a fresh pool. *)

(** What the constructor needs and gives. *)

Lemma htsize_widest : htsize (UINT32_MODULUS - 1) = None.
Proof. by vm_compute. Qed.

Lemma BufMgr_new_Ok N (d0 : Disk) s0 :
  BufMgr_new N d0 = (Ok tt, s0) → is_Some (htsize N) ∧ s0 = (BufMgr_new N d0).2.
Proof.
  intros Hnew. split; [|by rewrite Hnew].
  unfold BufMgr_new in Hnew. by destruct (htsize N).
Qed.

Lemma BufMgr_new_bound N (d0 : Disk) s0 :
  0 < N < UINT32_MODULUS → BufMgr_new N d0 = (Ok tt, s0) →
  pool_wf s0 ∧ numBufs s0 = N ∧ numBufs s0 + 1 < UINT32_MODULUS.
Proof.
  intros HN Hnew. apply BufMgr_new_Ok in Hnew as [Hsize ->]. simpl.
  split; [|split; [done|]].
  - unfold pool_wf. simpl. rewrite length_fmap, length_seqZ, length_replicate.
    repeat split; try done; try lia; unfold wrap32.
    + apply Z.mod_pos_bound. done.
    + apply Z.mod_pos_bound. done.
  - destruct (decide (N = UINT32_MODULUS - 1)) as [->|]; [|lia].
    rewrite htsize_widest in Hsize. by destruct Hsize.
Qed.

Lemma filled_new N (d0 : Disk) :
  0 < N < UINT32_MODULUS → filled N d0 0 (BufMgr_new N d0).2.
Proof.
  intros HN. unfold filled, BufMgr_new. simpl.
  rewrite length_fmap, length_seqZ, length_replicate.
  do 4 (split; [done|]). split.
  { unfold wrap32. apply Z.mod_small. lia. }
  intros i d Hd. apply list_lookup_fmap_Some in Hd as (z & -> & _).
  split; [intros ?; lia|done].
Qed.

Lemma filled_all_pinned N (d0 : Disk) s :
  0 < N < UINT32_MODULUS → filled N d0 (Z.to_nat N) s → pool_wf s ∧ all_pinned s.
Proof.
  intros HN (Hn & Hld & Hlp & _ & Hc & Hds). split.
  - unfold pool_wf. rewrite Hn, Hc. repeat split; try done; try lia.
    + case_decide; lia.
    + case_decide; lia.
  - unfold all_pinned. apply Forall_lookup. intros i d Hd.
    apply (Hds i d Hd). apply lookup_lt_Some in Hd. lia.
Qed.

Lemma readPage_fills N (d0 : Disk) k s f p :
  0 < N < UINT32_MODULUS → filled N d0 k s → (k < Z.to_nat N)%nat →
  hashTable s !! (f, p) = None → is_Some (file_readPage f p d0) →
  ∃ s', readPage f p s = (Ok (Z.of_nat k), s') ∧ filled N d0 (S k) s' ∧
    hashTable s' = <[(f, p) := Z.of_nat k]> (hashTable s).
Proof.
  intros HN (Hn & Hld & Hlp & Hdk & Hc & Hds) Hk Hh [pg Hread].
  destruct (lookup_lt_is_Some_2 (bufDescTable s) k) as [d Hd]; [lia|].
  destruct (lookup_lt_is_Some_2 (bufPool s) k) as [pg0 Hpg0]; [lia|].
  assert (valid d = false) as Hv by (apply (Hds k d Hd); lia).
  assert (wrap32 (clockHand s + 1) `mod` numBufs s = Z.of_nat k) as Hhand.
  { rewrite Hc, Hn. unfold wrap32. case_decide as Hk0.
    - subst k. replace (N - 1 + 1) with N by lia.
      rewrite (Z.mod_small N) by lia. by rewrite Z.mod_same by lia.
    - replace (Z.of_nat k - 1 + 1) with (Z.of_nat k) by lia.
      rewrite (Z.mod_small (Z.of_nat k) UINT32_MODULUS) by lia.
      apply Z.mod_small. lia. }
  assert (allocBuf s = (Ok (Z.of_nat k), with_clock (Z.of_nat k) s)) as Halloc.
  { unfold allocBuf, allocBuf_fuel.
    destruct (Z.to_nat (2 * numBufs s + 1)) as [|fuel] eqn:Hfuel; [lia|].
    simpl. rewrite decide_True by lia.
    unfold advanceClock. rewrite decide_False by lia. rewrite Hhand. simpl.
    by rewrite frame_lookup_of_nat, Hd, Hv. }
  eexists. split; [|split].
  - unfold readPage, try_catch. unfold bind at 1, hash_lookup at 1.
    rewrite Hh. simpl.
    unfold bind, File_readPage, set_page, hash_insert, get_desc, set_desc, ret.
    rewrite Halloc. simpl. rewrite Hdk, Hread. simpl.
    rewrite frame_lookup_of_nat, Hpg0. simpl.
    rewrite frame_lookup_of_nat, Hd. reflexivity.
  - unfold filled, frame_update. simpl. rewrite !length_insert, Nat2Z.id.
    do 4 (split; [done|]). split.
    { lia. }
    intros i d1 Hd1. destruct (decide (i = k)) as [->|Hne].
    + rewrite list_lookup_insert_eq in Hd1 by (by eapply lookup_lt_Some).
      injection Hd1 as <-. simpl. split; [done|intros ?; lia].
    + rewrite list_lookup_insert_ne in Hd1 by done.
      destruct (Hds i d1 Hd1) as [Hlt Hge]. split; intros ?; [apply Hlt|apply Hge]; lia.
  - done.
Qed.

Lemma fetch_all_fills N (d0 : Disk) pages : ∀ k s,
  0 < N < UINT32_MODULUS → filled N d0 k s →
  (k + length pages ≤ Z.to_nat N)%nat → NoDup pages →
  (∀ key, key ∈ pages → hashTable s !! key = None) →
  (∀ key, key ∈ pages → is_Some (file_readPage key.1 key.2 d0)) →
  ∃ s', fetch_all pages s = (Ok tt, s') ∧ filled N d0 (k + length pages) s' ∧
    ∀ key, key ∉ pages → hashTable s' !! key = hashTable s !! key.
Proof.
  induction pages as [|[f p] rest IH]; intros k s HN Hfill Hlen Hnd Hfresh Hread.
  { exists s. simpl. by rewrite Nat.add_0_r. }
  simpl in Hlen. apply NoDup_cons in Hnd as [Hnotin Hnd].
  destruct (readPage_fills N d0 k s f p) as (s1 & Hrun & Hfill1 & Hh1);
    [done|done|lia|..].
  { apply Hfresh. by left. }
  { apply (Hread (f, p)). by left. }
  destruct (IH (S k) s1) as (s' & Hrest & Hfill' & Hh'); [done|done|lia|done|..].
  { intros key Hkey. rewrite Hh1, lookup_insert_ne.
    - apply Hfresh. by right.
    - intros <-. done. }
  { intros key Hkey. apply Hread. by right. }
  exists s'. split; [|split].
  - simpl. unfold bind. by rewrite Hrun.
  - simpl. by replace (k + S (length rest))%nat with (S k + length rest)%nat by lia.
  - intros key Hkey. apply not_elem_of_cons in Hkey as [Hne Hkey].
    rewrite (Hh' key Hkey), Hh1. by apply lookup_insert_ne.
Qed.

(** C4. In a pool of [N] frames that the constructor has built, once
    [N] distinct pages have been fetched and none unpinned, every frame is
    valid and pinned and fetching one more page throws BufferExceeded.
    More generally, whenever every frame is valid and pinned and
    [numBufs + 1] is a [uint32], the scan throws BufferExceeded instead
    of looping: it is still running after [numBufs] turns and has thrown
    by turn [2 * numBufs + 1]. Every pool the constructor builds has its
    arrays of [numBufs] entries and [numBufs + 1] a [uint32]. *)
Theorem pool_exhausted_when_all_pinned :
  (∀ N (d0 : Disk) s0 pages f p,
     0 < N < UINT32_MODULUS → BufMgr_new N d0 = (Ok tt, s0) →
     NoDup pages → length pages = Z.to_nat N → (f, p) ∉ pages →
     (∀ key, key ∈ pages → is_Some (file_readPage key.1 key.2 d0)) →
     ∃ s s', fetch_all pages s0 = (Ok tt, s) ∧
       all_pinned s ∧
       readPage f p s = (Throw BufferExceededException, s')) ∧
  (∀ s, pool_wf s → numBufs s + 1 < UINT32_MODULUS → all_pinned s →
     (∃ s', allocBuf s = (Throw BufferExceededException, s')) ∧
     (∀ fuel, (fuel ≤ Z.to_nat (numBufs s))%nat → allocBuf_loop fuel 0 s = None) ∧
     (∃ s', allocBuf_loop (Z.to_nat (2 * numBufs s + 1)) 0 s =
              Some (Throw BufferExceededException, s'))) ∧
  (∀ N (d0 : Disk) s0,
     0 < N < UINT32_MODULUS → BufMgr_new N d0 = (Ok tt, s0) →
     pool_wf s0 ∧ numBufs s0 = N ∧ numBufs s0 + 1 < UINT32_MODULUS).
Proof.
  split; [|split].
  - intros N d0 s0 pages f p HN Hnew Hnd Hlen Hnotin Hread.
    pose proof (BufMgr_new_bound N d0 s0 HN Hnew) as (_ & _ & Hbound).
    apply BufMgr_new_Ok in Hnew as [_ ->].
    destruct (fetch_all_fills N d0 pages 0 (BufMgr_new N d0).2)
      as (s & Hrun & Hfill & Hh); [done|by apply filled_new|simpl; lia|done|done|done|].
    simpl in Hfill. rewrite Hlen in Hfill. pose proof Hfill as (Hn & _).
    apply filled_all_pinned in Hfill as [Hwf Hpinned]; [|done].
    destruct (readPage_all_pinned f p s) as [s' Hfail]; [done|by rewrite Hn|done|..].
    { by rewrite (Hh _ Hnotin). }
    by exists s, s'.
  - intros s Hwf Hbound Hpinned.
    destruct (allocBuf_all_pinned s Hwf Hbound Hpinned) as [s' Hfull].
    split; [|split].
    + exists s'. unfold allocBuf. by rewrite Hfull.
    + intros fuel Hfuel. by apply allocBuf_all_pinned_turns.
    + by exists s'.
  - intros N d0 s0 HN Hnew. by apply (BufMgr_new_bound N d0).
Qed.

End Proofs.

(** * Further properties *)

Section MoreProofs.
Context {Disk : Type} `{FL : FileLayer Disk}.

Abbreviation St := (State Disk).
Implicit Types (s : St) (d : BufDesc) (i hand fr : FrameId).

(** ** The clock hand *)

Lemma with_clock_same s : with_clock (clockHand s) s = s.
Proof. by destruct s. Qed.

Lemma advanceClock_times_hand k : ∀ s,
  0 < numBufs s < UINT32_MODULUS → 0 ≤ clockHand s < numBufs s →
  advanceClock_times k s =
    (Ok tt, with_clock ((clockHand s + Z.of_nat k) mod numBufs s) s).
Proof.
  induction k as [|k IH]; intros s Hn Hc.
  { simpl. unfold ret. rewrite Z.add_0_r, Z.mod_small by done.
    by rewrite with_clock_same. }
  simpl. unfold bind, advanceClock. rewrite decide_False by lia.
  assert (wrap32 (clockHand s + 1) = clockHand s + 1) as ->.
  { unfold wrap32. apply Z.mod_small. lia. }
  rewrite IH; simpl; [|done|by apply Z.mod_pos_bound; lia].
  unfold with_clock. simpl. do 2 f_equal.
  rewrite Zplus_mod_idemp_l. f_equal. lia.
Qed.

(** X1. The hand moves in a cycle: from a hand below [numBufs], [k] calls
    of [advanceClock] put it at [(clockHand + k) mod numBufs] and change
    nothing else, so [numBufs] calls bring the pool back as it was. *)
Theorem advanceClock_cycles s :
  0 < numBufs s < UINT32_MODULUS → 0 ≤ clockHand s < numBufs s →
  (∀ k, advanceClock_times k s =
          (Ok tt, with_clock ((clockHand s + Z.of_nat k) mod numBufs s) s)) ∧
  advanceClock_times (Z.to_nat (numBufs s)) s = (Ok tt, s).
Proof.
  intros Hn Hc. split; [intros k; by apply advanceClock_times_hand|].
  rewrite advanceClock_times_hand by done.
  rewrite Z2Nat.id by lia.
  replace (clockHand s + numBufs s) with (clockHand s + 1 * numBufs s) by lia.
  rewrite Z.mod_add by lia. rewrite Z.mod_small by done.
  by rewrite with_clock_same.
Qed.

(** ** Pools on which no access goes out of range *)

Lemma pool_safe_lookup s i :
  pool_safe s → 0 ≤ i < numBufs s →
  (∃ d, frame_lookup (bufDescTable s) i = Some d ∧ desc_ok d) ∧
  is_Some (frame_lookup (bufPool s) i).
Proof.
  intros (Hn & Hld & Hlp & _ & _ & Hds) Hi. split.
  - destruct (frame_lookup_lt (bufDescTable s) i) as [d Hd]; [lia|lia|].
    exists d. split; [done|].
    apply frame_lookup_Some in Hd as [_ Hd].
    rewrite Forall_lookup in Hds. by eapply Hds.
  - apply frame_lookup_lt; lia.
Qed.

Lemma pool_safe_clock s c :
  pool_safe s → 0 ≤ c < numBufs s → pool_safe (with_clock c s).
Proof.
  intros ([??]&?&?&[??]&Hh&?) [??]. repeat split; try done; by eapply Hh.
Qed.

Lemma pool_safe_desc s i d :
  pool_safe s → desc_ok d →
  pool_safe (with_descs (frame_update (bufDescTable s) i d) s).
Proof.
  intros ([??]&?&?&[??]&Hh&?) Hd. unfold pool_safe, frame_update. simpl.
  rewrite length_insert. repeat split; try done; try (by eapply Hh).
  by apply Forall_insert.
Qed.

Lemma pool_safe_page s i pg :
  pool_safe s → pool_safe (with_pool (frame_update (bufPool s) i pg) s).
Proof.
  intros ([??]&?&?&[??]&Hh&?). unfold pool_safe, frame_update. simpl.
  rewrite length_insert. repeat split; try done; by eapply Hh.
Qed.

Lemma pool_safe_delete s key :
  pool_safe s → pool_safe (with_hash (delete key (hashTable s)) s).
Proof.
  intros (?&?&?&?&Hh&?). unfold pool_safe. simpl.
  do 4 (split; [done|]). split; [|done].
  intros key' fr Hk. apply lookup_delete_Some in Hk as [_ Hk]. by eapply Hh.
Qed.

Lemma pool_safe_insert s key fr :
  pool_safe s → 0 ≤ fr < numBufs s →
  pool_safe (with_hash (<[key := fr]> (hashTable s)) s).
Proof.
  intros (?&?&?&?&Hh&?) Hfr. unfold pool_safe. simpl.
  do 4 (split; [done|]). split; [|done].
  intros key' fr' Hk. apply lookup_insert_Some in Hk as [[_ <-]|[_ Hk]]; [done|].
  by eapply Hh.
Qed.

Lemma pool_safe_event s e : pool_safe s → pool_safe (with_event e s).
Proof. intros ([??]&?&?&[??]&Hh&?). repeat split; try done; by eapply Hh. Qed.

Lemma pool_safe_disk s dk : pool_safe s → pool_safe (with_disk dk s).
Proof. intros ([??]&?&?&[??]&Hh&?). repeat split; try done; by eapply Hh. Qed.

Lemma INT_range : INT_MIN < 0 ∧ 1 < INT_MAX.
Proof. done. Qed.

Lemma pool_safe_new bufs (d0 : Disk) s0 :
  0 < bufs < UINT32_MODULUS → BufMgr_new bufs d0 = (Ok tt, s0) → pool_safe s0.
Proof.
  intros Hb [_ ->]%BufMgr_new_Ok. unfold pool_safe, BufMgr_new. simpl.
  rewrite length_fmap, length_seqZ, length_replicate.
  do 3 (split; [done|]). split; [|split].
  - unfold wrap32. rewrite Z.mod_small by lia. lia.
  - intros key fr Hk. by rewrite lookup_empty in Hk.
  - apply Forall_fmap, Forall_forall. intros i _. by split.
Qed.

Ltac scan_done H :=
  split; [done|]; split; [done|]; split; [exact H|]; split; [done|];
  intros ? ?; simplify_eq; done.

(** The scan keeps the pool safe and hands out frames below [numBufs]. *)
Lemma allocBuf_loop_safe fuel : ∀ count s r s',
  pool_safe s → allocBuf_loop fuel count s = Some (r, s') →
  r ≠ Undefined ∧ r ≠ Diverges ∧ pool_safe s' ∧ numBufs s' = numBufs s ∧
  ∀ fr, r = Ok fr → 0 ≤ fr < numBufs s.
Proof.
  induction fuel as [|fuel IH]; intros count s r s' Hsafe Hrun; simpl in Hrun.
  { case_decide; [done|]. injection Hrun as <- <-. scan_done Hsafe. }
  case_decide; [|injection Hrun as <- <-; scan_done Hsafe].
  pose proof Hsafe as (Hn & _ & _ & Hc & _ & _).
  destruct (advanceClock_cases s) as [[Hz _]|[_ Hadv]]; [lia|]. rewrite Hadv in Hrun.
  set (hand := wrap32 (clockHand s + 1) `mod` numBufs s) in *.
  assert (0 ≤ hand < numBufs s) as Hhand by (apply Z.mod_pos_bound; lia).
  assert (pool_safe (with_clock hand s)) as Hs1 by (by apply pool_safe_clock).
  simpl in Hrun.
  destruct (pool_safe_lookup s hand Hsafe Hhand) as [(d & Hd & Hok) [pg Hpg]].
  rewrite Hd in Hrun.
  destruct (valid d) eqn:Hv;
    [|injection Hrun as <- <-; scan_done Hs1].
  destruct (refbit d) eqn:Hr.
  { apply IH in Hrun as (? & ? & ? & ? & ?); [done|].
    apply (pool_safe_desc (with_clock hand s)); [done|].
    destruct Hok as [Hf Hp]. by split. }
  case_decide as Hpin.
  { by apply IH in Hrun as (? & ? & ? & ? & ?). }
  destruct (dirty d) eqn:Hdt;
    [|injection Hrun as <- <-; scan_done Hs1].
  injection Hrun as Hrun. destruct Hok as [Hf Hp]. destruct (Hf Hv) as [f Hfile].
  unfold bind, deref, get_page, File_writePage, hash_remove, set_desc, ret in Hrun.
  rewrite Hfile in Hrun. simpl in Hrun. rewrite Hpg in Hrun. simpl in Hrun.
  destruct (file_writePage f pg (disk s)) as [dk|]; simpl in Hrun;
    [destruct (hashTable s !! (f, pageNo d)) as [fr0|]|]; injection Hrun as <- <-.
  - assert (pool_safe
              (with_descs (frame_update (bufDescTable s) hand (with_dirty false d))
                 (with_hash (delete (f, pageNo d) (hashTable s))
                    (with_disk dk (with_event (EvWrite f pg) (with_clock hand s))))))
      as Hs2.
    { apply (pool_safe_desc (with_hash _ (with_disk dk (with_event _ (with_clock hand s))))).
      + apply (pool_safe_delete (with_disk dk (with_event _ (with_clock hand s)))).
        by apply pool_safe_disk, pool_safe_event.
      + by split. }
    scan_done Hs2.
  - assert (pool_safe (with_disk dk (with_event (EvWrite f pg) (with_clock hand s))))
      as Hs2 by (by apply pool_safe_disk, pool_safe_event).
    scan_done Hs2.
  - assert (pool_safe (with_event (EvWrite f pg) (with_clock hand s))) as Hs2
      by (by apply pool_safe_event).
    scan_done Hs2.
Qed.

Lemma allocBuf_safe s r s' :
  pool_safe s → allocBuf s = (r, s') →
  r ≠ Undefined ∧ (numBufs s + 1 < UINT32_MODULUS → r ≠ Diverges) ∧
  pool_safe s' ∧ numBufs s' = numBufs s ∧
  ∀ fr, r = Ok fr → 0 ≤ fr < numBufs s.
Proof.
  intros Hsafe. unfold allocBuf.
  destruct (allocBuf_loop _ _ _) as [[r0 s0]|] eqn:Hrun.
  - intros [= <- <-]. apply allocBuf_loop_safe in Hrun as (? & ? & ? & ? & ?); done.
  - intros [= <- <-]. split; [done|]. split; [|done].
    intros Hbound. exfalso. pose proof Hsafe as (_ & Hlen & _).
    destruct (allocBuf_loop_terminates (allocBuf_fuel s) 0 s) as [x Hx]; [done|lia|..].
    + pose proof (refcount_le (bufDescTable s)). unfold allocBuf_fuel. lia.
    + congruence.
Qed.

(** Putting a page in a frame: the tail that [readPage] and [allocPage]
    share. *)
Lemma install_page s fr f p pg :
  pool_safe s → 0 ≤ fr < numBufs s →
  ∃ d0, frame_lookup (bufDescTable s) fr = Some d0 ∧
    bind (set_page fr pg) (λ _,
    bind (hash_insert f p fr) (λ _,
    bind (get_desc fr) (λ d,
    bind (set_desc fr (Set_ f p d)) (λ _, ret fr)))) s =
    (Ok fr, with_descs (frame_update (bufDescTable s) fr (Set_ f p d0))
              (with_hash (<[(f, p) := fr]> (hashTable s))
                 (with_pool (frame_update (bufPool s) fr pg) s))) ∧
    pool_safe (with_descs (frame_update (bufDescTable s) fr (Set_ f p d0))
                 (with_hash (<[(f, p) := fr]> (hashTable s))
                    (with_pool (frame_update (bufPool s) fr pg) s))).
Proof.
  intros Hsafe Hfr.
  destruct (pool_safe_lookup s fr Hsafe Hfr) as [(d0 & Hd & Hok) [pg0 Hpg]].
  exists d0. split; [done|]. split.
  - unfold bind, set_page, hash_insert, get_desc, set_desc, ret.
    rewrite Hpg. simpl. by rewrite Hd.
  - apply (pool_safe_desc (with_hash _ (with_pool _ s))).
    + apply (pool_safe_insert (with_pool _ s)); [|done]. by apply pool_safe_page.
    + split; [by eexists|done].
Qed.

(** ** The public methods keep the pool safe *)

Ltac rest_done H := split; [done|]; split; [exact H|done].
Ltac call_done H := split; [done|]; rest_done H.

(** A fetch leaves defined behaviour on a safe pool in one case only: a
    hit on a frame whose pin count is [INT_MAX]. *)
Lemma readPage_safe f p s r s' :
  pool_safe s → readPage f p s = (r, s') →
  (r = Undefined ↔
     ∃ fr d, hashTable s !! (f, p) = Some fr ∧
       frame_lookup (bufDescTable s) fr = Some d ∧ pinCnt d = INT_MAX) ∧
  (numBufs s + 1 < UINT32_MODULUS → r ≠ Diverges) ∧
  pool_safe s' ∧ numBufs s' = numBufs s.
Proof.
  intros Hsafe Hrun. pose proof INT_range as [Hmin Hmax].
  destruct (hashTable s !! (f, p)) as [fr|] eqn:Hh.
  - pose proof Hsafe as (_ & _ & _ & _ & Hrange & _).
    destruct (pool_safe_lookup s fr Hsafe (Hrange _ _ Hh)) as [(d & Hd & Hf & Hp) _].
    rewrite (readPage_hit_run f p s fr d Hh Hd) in Hrun.
    case_decide as Hz; injection Hrun as <- <-.
    + assert (pool_safe (with_descs (frame_update (bufDescTable s) fr
                (with_refbit true (with_pinCnt (pinCnt d + 1) d))) s)) as Hs'.
      { apply pool_safe_desc; [done|]. split; [done|simpl; lia]. }
      split; [|rest_done Hs'].
      split; [done|]. intros (fr' & d' & [= <-] & Hd' & Hp').
      rewrite Hd in Hd'. injection Hd' as <-. lia.
    + split; [|rest_done Hsafe].
      split; [|done]. intros _. exists fr, d. repeat split; [done|lia].
  - rewrite readPage_miss_run in Hrun by done. unfold bind at 1 in Hrun.
    assert (∀ r0 : Outcome FrameId, r0 ≠ Undefined →
              r0 = Undefined ↔
              ∃ fr d, None = Some fr ∧
                frame_lookup (bufDescTable s) fr = Some d ∧ pinCnt d = INT_MAX) as Hno.
    { intros r0 Hr0. split; [done|]. by intros (? & ? & ? & _). }
    destruct (allocBuf s) as [ra sa] eqn:Halloc.
    apply allocBuf_safe in Halloc as (Hra & Hdiv & Hsa & Hn & Hfr); [|done].
    destruct ra as [fr| | |];
      [|injection Hrun as <- <-; (split; [by apply Hno|rest_done Hsa])..].
    unfold bind at 1, File_readPage at 1 in Hrun.
    assert (pool_safe (with_event (EvRead f p) sa)) as Hse by (by apply pool_safe_event).
    destruct (file_readPage f p (disk sa)) as [pg|].
    + destruct (install_page (with_event (EvRead f p) sa) fr f p pg) as (d0 & _ & Heq & Hs');
        [done|simpl; rewrite Hn; by apply Hfr|].
      rewrite Heq in Hrun. injection Hrun as <- <-.
      split; [by apply Hno|rest_done Hs'].
    + injection Hrun as <- <-. split; [by apply Hno|rest_done Hse].
Qed.

Lemma allocPage_safe f s r s' :
  pool_safe s → allocPage f s = (r, s') →
  r ≠ Undefined ∧ (numBufs s + 1 < UINT32_MODULUS → r ≠ Diverges) ∧
  pool_safe s' ∧ numBufs s' = numBufs s.
Proof.
  intros Hsafe. unfold allocPage. unfold bind at 1, File_allocatePage at 1.
  assert (pool_safe (with_event (EvAllocate f) s)) as Hse by (by apply pool_safe_event).
  destruct (file_allocatePage f (disk s)) as [[pg dk]|];
    [|intros [= <- <-]; call_done Hse].
  set (s1 := with_disk dk (with_event (EvAllocate f) s)).
  assert (pool_safe s1) as Hs1 by (by apply pool_safe_disk).
  unfold bind at 1. destruct (allocBuf s1) as [ra sa] eqn:Halloc.
  apply allocBuf_safe in Halloc as (Hra & Hdiv & Hsa & Hn & Hfr); [|done].
  change (numBufs s1) with (numBufs s) in *.
  destruct ra as [fr|e| |];
    [|intros [= <- <-]; call_done Hsa|done
     |intros [= <- <-]; split; [done|]; split; [intros Hb _; by apply (Hdiv Hb)|done]].
  specialize (Hfr fr eq_refl).
  destruct (pool_safe_lookup sa fr Hsa) as [(d0 & Hd & Hok) [pg0 Hpg]]; [by rewrite Hn|].
  unfold bind, set_page, hash_insert, get_desc, set_desc, get_page, ret.
  rewrite Hpg. simpl. rewrite Hd. simpl.
  rewrite (frame_lookup_update_eq _ _ _ _ Hpg).
  intros [= <- <-].
  assert (pool_safe
            (with_descs (frame_update (bufDescTable sa) fr (Set_ f (page_number pg) d0))
               (with_hash (<[(f, page_number pg) := fr]> (hashTable sa))
                  (with_pool (frame_update (bufPool sa) fr pg) sa)))) as Hs'.
  { apply (pool_safe_desc (with_hash _ (with_pool _ sa))).
    - apply (pool_safe_insert (with_pool _ sa)); [|simpl; by rewrite Hn].
      by apply pool_safe_page.
    - split; [by eexists|done]. }
  call_done Hs'.
Qed.

Lemma unPinPage_safe f p b s r s' :
  pool_safe s → unPinPage f p b s = (r, s') →
  r ≠ Undefined ∧ r ≠ Diverges ∧ pool_safe s' ∧ numBufs s' = numBufs s.
Proof.
  intros Hsafe Hrun. destruct (hashTable s !! (f, p)) as [fr|] eqn:Hh.
  - pose proof Hsafe as (_ & _ & _ & _ & Hrange & _).
    destruct (pool_safe_lookup s fr Hsafe (Hrange _ _ Hh)) as [(d & Hd & Hf & Hp) _].
    rewrite (unPinPage_run f p b s fr d Hh Hd) in Hrun.
    pose proof INT_range as [Hmin Hmax].
    case_decide as Hz; [injection Hrun as <- <-; call_done Hsafe|].
    rewrite decide_True in Hrun by lia. injection Hrun as <- <-.
    assert (pool_safe (with_descs (frame_update (bufDescTable s) fr
              (with_dirty (b || dirty d) (with_pinCnt (pinCnt d - 1) d))) s)) as Hs'.
    { apply pool_safe_desc; [done|]. split; [done|simpl; lia]. }
    call_done Hs'.
  - rewrite unPinPage_absent in Hrun by done. injection Hrun as <- <-.
    call_done Hsafe.
Qed.

Lemma flushFile_body_safe f i s r s' :
  pool_safe s → 0 ≤ i < numBufs s → flushFile_body f i s = (r, s') →
  r ≠ Undefined ∧ r ≠ Diverges ∧ pool_safe s' ∧ numBufs s' = numBufs s.
Proof.
  intros Hsafe Hi Hrun.
  destruct (pool_safe_lookup s i Hsafe Hi) as [(d & Hd & Hok) [pg Hpg]].
  apply flushFile_body_cases in Hrun.
  destruct Hrun as [(Hnone & _)|(d' & Hd' & Hcase)]; [congruence|].
  destruct Hcase as [(_ & -> & ->)|[(_ & _ & -> & ->)|[(_ & _ & _ & -> & ->)|
    [(_ & _ & _ & _ & [(_ & -> & ->)|(_ & -> & ->)])|(_ & _ & _ & _ & Hw)]]]];
    try (call_done Hsafe).
  - assert (pool_safe (with_hash (delete (f, pageNo d') (hashTable s)) s)) as Hs'
      by (by apply pool_safe_delete).
    call_done Hs'.
  - destruct Hw as [(Hnone & _)|(pg' & _ & [(_ & -> & ->)|(dk & _ &
                      [(_ & -> & ->)|(_ & -> & ->)])])]; [congruence|..].
    + assert (pool_safe (with_event (EvWrite f pg') s)) as Hs'
        by (by apply pool_safe_event).
      call_done Hs'.
    + assert (pool_safe (with_disk dk (with_event (EvWrite f pg') s))) as Hs'
        by (by apply pool_safe_disk, pool_safe_event).
      call_done Hs'.
    + assert (pool_safe (with_hash (delete (f, pageNo d') (hashTable s))
                           (with_disk dk (with_event (EvWrite f pg') s)))) as Hs'.
      { apply (pool_safe_delete (with_disk dk (with_event _ s))).
        by apply pool_safe_disk, pool_safe_event. }
      call_done Hs'.
Qed.

Lemma flushFile_loop_safe f idx : ∀ s r s',
  pool_safe s → (∀ i, i ∈ idx → 0 ≤ i < numBufs s) →
  flushFile_loop f idx s = (r, s') →
  r ≠ Undefined ∧ r ≠ Diverges ∧ pool_safe s' ∧ numBufs s' = numBufs s.
Proof.
  induction idx as [|i idx IH]; intros s r s' Hsafe Hidx Hrun; simpl in Hrun.
  { unfold ret in Hrun. injection Hrun as <- <-. call_done Hsafe. }
  unfold bind in Hrun.
  destruct (flushFile_body f i s) as [rb sb] eqn:Hbody.
  apply flushFile_body_safe in Hbody as (Hrb & Hrd & Hsb & Hn); [|done|apply Hidx; by left].
  destruct rb as [[]| | |]; [|injection Hrun as <- <-; call_done Hsb..].
  apply IH in Hrun as (? & ? & Hs' & Hn'); [|done|].
  - rewrite Hn in Hn'. call_done Hs'.
  - intros j Hj. rewrite Hn. apply Hidx. by right.
Qed.

Lemma flushFile_safe f s r s' :
  pool_safe s → flushFile f s = (r, s') →
  r ≠ Undefined ∧ r ≠ Diverges ∧ pool_safe s' ∧ numBufs s' = numBufs s.
Proof.
  intros Hsafe Hrun. unfold flushFile in Hrun.
  apply flushFile_loop_safe in Hrun; [done..|].
  intros i Hi. apply elem_of_seqZ in Hi. lia.
Qed.

Lemma disposePage_safe f p s r s' :
  pool_safe s → disposePage f p s = (r, s') →
  r = Ok tt ∧ pool_safe s' ∧ numBufs s' = numBufs s.
Proof.
  intros Hsafe Hrun. destruct (hashTable s !! (f, p)) as [fr|] eqn:Hh.
  - pose proof Hsafe as (_ & _ & _ & _ & Hrange & _).
    destruct (pool_safe_lookup s fr Hsafe (Hrange _ _ Hh)) as [(d & Hd & Hok) _].
    unfold disposePage, try_catch, bind, hash_lookup, hash_remove, get_desc, set_desc,
      File_deletePage, ret in Hrun.
    rewrite Hh in Hrun. simpl in Hrun. rewrite Hh in Hrun. simpl in Hrun.
    rewrite Hd in Hrun. simpl in Hrun.
    assert (pool_safe (with_descs (frame_update (bufDescTable s) fr (Clear d))
                         (with_hash (delete (f, p) (hashTable s)) s))) as Hs1.
    { apply (pool_safe_desc (with_hash _ s)); [by apply pool_safe_delete|].
      by split. }
    destruct (file_deletePage f p (disk s)) as [dk|]; simpl in Hrun;
      injection Hrun as <- <-.
    + split; [done|]. split; [|done].
      apply (pool_safe_disk (with_event _ (with_descs _ (with_hash _ s)))).
      by apply pool_safe_event.
    + split; [done|]. split; [|done]. by apply pool_safe_event.
  - unfold disposePage, try_catch, bind, hash_lookup in Hrun. rewrite Hh in Hrun.
    simpl in Hrun. unfold ret in Hrun. by injection Hrun as <- <-.
Qed.

(** X2. Every pool reached from a constructed one through the public
    methods is safe: the two arrays keep their [numBufs] entries, the hand
    and every frame id in the index stay below [numBufs], a valid frame
    has an owner, and every pin count is between 0 and [INT_MAX]. Its
    [numBufs + 1] is a [uint32], so the counter of the scan does not
    wrap. *)
Theorem reachable_pool_safe s :
  reachable s → pool_safe s ∧ numBufs s + 1 < UINT32_MODULUS.
Proof.
  induction 1 as [bufs d0 s Hb Hnew|s f p r s' _ [IH Hw] Hrun Hr
                 |s f r s' _ [IH Hw] Hrun Hr|s f p b r s' _ [IH Hw] Hrun Hr
                 |s f r s' _ [IH Hw] Hrun Hr|s f p r s' _ [IH Hw] Hrun Hr].
  - split; [by apply (pool_safe_new bufs d0)|].
    by apply (BufMgr_new_bound bufs d0).
  - apply readPage_safe in Hrun as (_ & _ & ? & Hn); [|done]. by rewrite Hn.
  - apply allocPage_safe in Hrun as (_ & _ & ? & Hn); [|done]. by rewrite Hn.
  - apply unPinPage_safe in Hrun as (_ & _ & ? & Hn); [|done]. by rewrite Hn.
  - apply flushFile_safe in Hrun as (_ & _ & ? & Hn); [|done]. by rewrite Hn.
  - apply disposePage_safe in Hrun as (_ & ? & Hn); [|done]. by rewrite Hn.
Qed.

Lemma forget_Undefined {A} (r : Outcome A) : forget r = Undefined ↔ r = Undefined.
Proof. by destruct r. Qed.

Lemma forget_Diverges {A} (r : Outcome A) : forget r = Diverges → r = Diverges.
Proof. by destruct r. Qed.

(** X3. On a safe pool a public method leaves defined behaviour in one
    case only: [readPage] of a page that is in the index, on a frame whose
    pin count is [INT_MAX], where the increment overflows. No array is
    indexed out of range, no null [File*] is dereferenced, no modulus is
    taken by zero. With [numBufs + 1 < 2^32] every call ends. After a
    call that returns or throws the pool is safe and [numBufs] is
    unchanged. *)
Theorem run_call_defined c s r s' :
  pool_safe s → run_call c s = (r, s') →
  (r = Undefined ↔
     ∃ f p fr d, c = CallReadPage f p ∧ hashTable s !! (f, p) = Some fr ∧
       frame_lookup (bufDescTable s) fr = Some d ∧ pinCnt d = INT_MAX) ∧
  (numBufs s + 1 < UINT32_MODULUS → r ≠ Diverges) ∧
  (r ≠ Undefined → pool_safe s' ∧ numBufs s' = numBufs s).
Proof.
  intros Hsafe Hrun.
  assert (∀ r0 : Outcome unit, r0 ≠ Undefined →
            (∀ f p, c ≠ CallReadPage f p) →
            r0 = Undefined ↔
            ∃ f p fr d, c = CallReadPage f p ∧ hashTable s !! (f, p) = Some fr ∧
              frame_lookup (bufDescTable s) fr = Some d ∧ pinCnt d = INT_MAX) as Hno.
  { intros r0 Hr0 Hc. split; [done|]. intros (f & p & _ & _ & Heq & _). by destruct (Hc f p). }
  destruct c as [f p|f|f p b|f|f p]; simpl in Hrun.
  - destruct (readPage f p s) as [r0 s0] eqn:Hop. injection Hrun as <- <-.
    apply readPage_safe in Hop as (Hr & Hdiv & ? & ?); [|done].
    split; [|split; [|done]].
    + rewrite forget_Undefined, Hr. split.
      * intros (fr & d & ?). by exists f, p, fr, d.
      * intros (f' & p' & fr & d & [= <- <-] & ?). by exists fr, d.
    + intros Hb ?%forget_Diverges. by apply Hdiv.
  - destruct (allocPage f s) as [r0 s0] eqn:Hop. injection Hrun as <- <-.
    apply allocPage_safe in Hop as (Hr & Hdiv & ? & ?); [|done].
    split; [|split; [|done]].
    + apply Hno; [|done]. by rewrite forget_Undefined.
    + intros Hb ?%forget_Diverges. by apply Hdiv.
  - apply unPinPage_safe in Hrun as (? & ? & ? & ?); [|done].
    split; [by apply Hno|done].
  - apply flushFile_safe in Hrun as (? & ? & ? & ?); [|done].
    split; [by apply Hno|done].
  - apply disposePage_safe in Hrun as (-> & ? & ?); [|done].
    split; [by apply Hno|done].
Qed.

(** ** The scan finds a frame it can take *)

Lemma frame_lookup_update_ne {A} (l : list A) i j x :
  0 ≤ i → 0 ≤ j → i ≠ j → frame_lookup (frame_update l i x) j = frame_lookup l j.
Proof.
  intros Hi Hj Hne. unfold frame_lookup, frame_update. case_decide; [|done].
  apply list_lookup_insert_ne. lia.
Qed.

Lemma next_hand (c n : Z) :
  0 ≤ c < n → n < UINT32_MODULUS →
  wrap32 (c + 1) mod n = if decide (c + 1 = n) then 0 else c + 1.
Proof.
  intros Hc Hn. unfold wrap32. rewrite (Z.mod_small (c + 1)) by lia.
  case_decide as Heq.
  - rewrite Heq. apply Z.mod_same. lia.
  - apply Z.mod_small. lia.
Qed.

(** Which outcomes [allocBuf] has at all. *)
Lemma allocBuf_loop_outcomes fuel count s r s' :
  allocBuf_loop fuel count s = Some (r, s') →
  r = Throw BufferExceededException ∨ r = Throw FileException ∨
  r = Throw HashNotFoundException ∨ r = Undefined ∨ ∃ fr, r = Ok fr.
Proof.
  intros Hrun. apply allocBuf_loop_inv in Hrun as (s1 & _ & Hfin).
  destruct Hfin as [[-> _]|[(_ & -> & _)|(_ & _ & [(_ & -> & _)|(d & _ & Hfin)])]];
    [by left|by right; right; right; left..|].
  destruct Hfin as [(_ & -> & _)|(_ & _ & _ & [(_ & -> & _)|(_ & Hwb)])];
    [right; right; right; right; by eexists..|].
  symmetry in Hwb. apply write_back_cases in Hwb.
  destruct Hwb as [(_&->&_)|(f&_&[(_&->&_)|(pg&_&[(_&->&_)|(dk&_&[(_&->&_)|(_&->&_)])])])].
  - by right; right; right; left.
  - by right; right; right; left.
  - by right; left.
  - by right; right; left.
  - right; right; right; right; by eexists.
Qed.

(** The scan throws NotFound only from the removal of a dirty victim
    whose key is not in the index. *)
Lemma allocBuf_loop_HashNotFound fuel count s s' :
  allocBuf_loop fuel count s = Some (Throw HashNotFoundException, s') →
  ∃ i d f, frame_lookup (bufDescTable s) i = Some d ∧ valid d = true ∧
    dirty d = true ∧ file d = Some f ∧ hashTable s !! (f, pageNo d) = None.
Proof.
  intros Hrun. apply allocBuf_loop_inv in Hrun as (s1 & Hs1 & Hfin).
  pose proof Hs1 as (_ & _ & Hh & _).
  destruct Hfin as [[? _]|[(_&?&_)|(_ & _ & [(_&?&_)|(d1 & Hd1 & Hfin)])]]; [done..|].
  destruct Hfin as [(_ & ? & _)|(Hv & _ & _ & [(_ & ? & _)|(Hdt & Hwb)])]; [done..|].
  symmetry in Hwb. apply write_back_cases in Hwb.
  destruct Hwb as [(_&?&_)|(f&Hf&[(_&?&_)|(pg&_&[(_&?&_)|(dk&_&[(Hkey&_&_)|(_&?&_)])])])];
    try done.
  destruct (scanned_lookup _ _ _ _ Hs1 Hd1) as (d & Hd & Hrel).
  destruct Hrel as (Hf1 & Hp1 & _ & _ & Hdt1 & Hv1 & _).
  exists (clockHand s1), d, f. rewrite <- Hh. repeat split; congruence.
Qed.

(** The hand reaches frame [j] after [dist] further turns; until then
    the counter cannot pass [numBufs]. *)
Lemma allocBuf_loop_finds dist : ∀ count s fuel j dj,
  pool_safe s → 0 ≤ j < numBufs s →
  frame_lookup (bufDescTable s) j = Some dj → takeable dj →
  Z.of_nat dist = (if decide (clockHand s < j) then j - clockHand s - 1
                   else j + numBufs s - clockHand s - 1) →
  0 ≤ count → count + Z.of_nat dist ≤ numBufs s → (dist < fuel)%nat →
  ∃ r s', allocBuf_loop fuel count s = Some (r, s') ∧
    r ≠ Throw BufferExceededException.
Proof.
  induction dist as [|dist IH];
    intros count s fuel j dj Hsafe Hj Hdj Htake Hdist Hcount Hle Hfuel.
  - pose proof Hsafe as (Hn & _ & _ & Hc & _ & _).
    destruct fuel as [|fuel]; [lia|]. simpl.
    rewrite decide_True by lia.
    unfold advanceClock. rewrite decide_False by lia.
    rewrite next_hand by lia.
    assert ((if decide (clockHand s + 1 = numBufs s) then 0 else clockHand s + 1) = j)
      as ->.
    { repeat case_decide; lia. }
    simpl. rewrite Hdj.
    destruct Htake as [Hv|[Hr Hp]].
    + rewrite Hv. by eexists _, _.
    + destruct (valid dj); [|by eexists _, _]. rewrite Hr.
      rewrite decide_False by done.
      destruct (dirty dj); [|by eexists _, _].
      match goal with |- context [Some (?m ?st)] =>
        change (m st) with (write_back j dj st);
        destruct (write_back j dj st) as [r s'] eqn:Hwb end.
      exists r, s'. split; [done|].
      apply write_back_cases in Hwb.
      destruct Hwb as [(_&->&_)|(f&_&[(_&->&_)|(pg&_&[(_&->&_)|(dk&_&[(_&->&_)|(_&->&_)])])])]; done.
  - pose proof Hsafe as (Hn & _ & _ & Hc & _ & _).
    destruct fuel as [|fuel]; [lia|]. simpl.
    rewrite decide_True by lia.
    unfold advanceClock. rewrite decide_False by lia.
    rewrite next_hand by lia.
    set (hand := if decide (clockHand s + 1 = numBufs s) then 0 else clockHand s + 1).
    assert (0 ≤ hand < numBufs s) as Hhand by (unfold hand; repeat case_decide; lia).
    assert (hand ≠ j) as Hne by (unfold hand; repeat case_decide; lia).
    assert (Z.of_nat dist = (if decide (hand < j) then j - hand - 1
                             else j + numBufs s - hand - 1)) as Hdist'.
    { unfold hand. repeat case_decide; lia. }
    simpl.
    destruct (pool_safe_lookup s hand Hsafe Hhand) as [(d & Hd & Hok) _].
    rewrite Hd.
    assert (pool_safe (with_clock hand s)) as Hs1 by (by apply pool_safe_clock).
    destruct (valid d) eqn:Hv; [|by eexists _, _].
    destruct (refbit d) eqn:Hr.
    { apply (IH _ _ _ j dj); simpl; try done; try lia.
      - apply (pool_safe_desc (with_clock hand s)); [done|].
        destruct Hok. by split.
      - by rewrite frame_lookup_update_ne by lia. }
    destruct (decide (pinCnt d > 0)) as [Hpin|Hpin].
    { assert (wrap32 (count + 1) = count + 1) as ->.
      { unfold wrap32. apply Z.mod_small. lia. }
      apply (IH _ _ _ j dj); simpl; try done; lia. }
    destruct (dirty d); [|by eexists _, _].
    match goal with |- context [Some (?m ?st)] =>
      change (m st) with (write_back hand d st);
      destruct (write_back hand d st) as [r s'] eqn:Hwb end.
    exists r, s'. split; [done|].
    apply write_back_cases in Hwb.
    destruct Hwb as [(_&->&_)|(f&_&[(_&->&_)|(pg&_&[(_&->&_)|(dk&_&[(_&->&_)|(_&->&_)])])])]; done.
Qed.

(** X4. When some frame of a safe pool is free, or holds a page that is
    neither pinned nor referenced, [allocBuf] does not give up: it returns
    a frame, unless the write-back of the victim throws, or the removal
    of the victim's key does. The removal throws only when some valid,
    dirty frame has its key missing from the index, which the index
    invariant excludes. *)
Theorem allocBuf_finds_takeable_frame s j dj :
  pool_safe s → frame_lookup (bufDescTable s) j = Some dj → takeable dj →
  ∃ r s', allocBuf s = (r, s') ∧
    ((∃ fr, r = Ok fr) ∨ r = Throw FileException ∨
     r = Throw HashNotFoundException) ∧
    (r = Throw HashNotFoundException →
       ∃ i d f, frame_lookup (bufDescTable s) i = Some d ∧ valid d = true ∧
         dirty d = true ∧ file d = Some f ∧ hashTable s !! (f, pageNo d) = None) ∧
    (index_invariant s → (∃ fr, r = Ok fr) ∨ r = Throw FileException).
Proof.
  intros Hsafe Hdj Htake.
  pose proof Hsafe as (Hn & Hlen & _ & Hc & _ & _).
  assert (0 ≤ j < numBufs s) as Hj.
  { apply frame_lookup_Some in Hdj as [? Hl]. apply lookup_lt_Some in Hl. lia. }
  set (dist := Z.to_nat (if decide (clockHand s < j) then j - clockHand s - 1
                         else j + numBufs s - clockHand s - 1)).
  destruct (allocBuf_loop_finds dist 0 s (allocBuf_fuel s) j dj)
    as (r & s' & Hrun & Hne); try done.
  - unfold dist. case_decide; lia.
  - unfold dist. case_decide; lia.
  - unfold dist, allocBuf_fuel. case_decide; lia.
  - exists r, s'. split; [unfold allocBuf; by rewrite Hrun|].
    pose proof (allocBuf_loop_safe _ _ _ _ _ Hsafe Hrun) as (Hu & _).
    assert (r = Throw HashNotFoundException →
       ∃ i d f, frame_lookup (bufDescTable s) i = Some d ∧ valid d = true ∧
         dirty d = true ∧ file d = Some f ∧ hashTable s !! (f, pageNo d) = None)
      as Hkey.
    { intros ->. by eapply allocBuf_loop_HashNotFound. }
    split; [|split; [done|]].
    + apply allocBuf_loop_outcomes in Hrun as [?|[?|[?|[?|?]]]]; try done;
        [right; by left|right; by right|by left].
    + intros Hinv.
      apply allocBuf_loop_outcomes in Hrun as [?|[?|[Hr|[?|?]]]]; try done;
        [by right| |by left].
      exfalso. destruct (Hkey Hr) as (i & d & f & Hd & Hv & _ & Hf & Hnone).
      destruct (Hinv i d Hd Hv) as (f' & Hf' & Hsome). congruence.
Qed.

(** ** What a call that evicts leaves alone *)

Lemma scanned_lookup_l s s1 i d :
  scanned s s1 → frame_lookup (bufDescTable s) i = Some d →
  ∃ d1, frame_lookup (bufDescTable s1) i = Some d1 ∧ same_but_refbit d d1.
Proof.
  intros (_&_&_&_&_&HF) [Hi Hl]%frame_lookup_Some.
  destruct (Forall2_lookup_l _ _ _ _ _ HF Hl) as (d1 & Hd & Hrel).
  exists d1. split; [|done]. by apply frame_lookup_Some.
Qed.

Lemma same_but_refbit_kept d d' : same_but_refbit d d' → kept d d'.
Proof. intros (?&?&?&?&?&?&?). by repeat split. Qed.

(** Whatever [allocBuf] does, every descriptor keeps its page, its pin
    count and its validity, a pinned one also its dirty bit, and the pool
    of pages is not touched. *)
Lemma kept_refl d : kept d d.
Proof. by repeat split. Qed.

Lemma allocBuf_kept s r s' :
  allocBuf s = (r, s') →
  bufPool s' = bufPool s ∧ numBufs s' = numBufs s ∧
  length (bufDescTable s') = length (bufDescTable s) ∧
  ∀ i d, frame_lookup (bufDescTable s) i = Some d →
    ∃ d', frame_lookup (bufDescTable s') i = Some d' ∧ kept d d'.
Proof.
  unfold allocBuf. destruct (allocBuf_loop _ _ _) as [[r0 s0]|] eqn:Hrun.
  2:{ intros [= <- <-]. do 3 (split; [done|]). intros i d Hd. exists d.
      split; [done|apply kept_refl]. }
  intros [= -> ->].
  apply allocBuf_loop_inv in Hrun as (s1 & Hs1 & Hfin).
  pose proof Hs1 as (Hn & Hp & _ & _ & _ & _).
  pose proof (scanned_length _ _ Hs1) as Hlen.
  assert (∀ i d, frame_lookup (bufDescTable s) i = Some d →
            ∃ d', frame_lookup (bufDescTable s1) i = Some d' ∧ kept d d') as Hs1k.
  { intros i d Hd. destruct (scanned_lookup_l _ _ _ _ Hs1 Hd) as (d1 & Hd1 & Hrel).
    exists d1. split; [done|]. by apply same_but_refbit_kept. }
  destruct Hfin as [[_ ->]|[(_ & _ & ->)|(_ & _ & [(_ & _ & ->)|(dh & Hdh & Hfin)])]];
    [done..|].
  destruct Hfin as [(_ & _ & ->)|(_ & _ & Hpin & [(_ & _ & ->)|(_ & Hwb)])]; [done..|].
  symmetry in Hwb. apply write_back_cases in Hwb.
  destruct Hwb as [(_&_&->)|(f&_&[(_&_&->)|(pg&_&[(_&_&->)|(dk&_&
                    [(_&_&->)|(_&_&->)])])])]; [done..|].
  simpl. split; [done|]. split; [done|]. split; [by rewrite length_frame_update|].
  intros i d Hd. destruct (Hs1k i d Hd) as (d1 & Hd1 & Hk).
  pose proof Hdh as [Hh0 _]%frame_lookup_Some.
  pose proof Hd as [Hi0 _]%frame_lookup_Some.
  destruct (decide (clockHand s1 = i)) as [Heq|Hne].
  - subst i. rewrite Hd1 in Hdh. injection Hdh as <-.
    exists (with_dirty false d1). split; [by eapply frame_lookup_update_eq|].
    destruct Hk as (?&?&?&Hpc&?&?). repeat split; try done.
    intros Hpinned. exfalso. apply Hpin. by rewrite Hpc.
  - exists d1. split; [|done]. by rewrite frame_lookup_update_ne.
Qed.

Lemma allocBuf_kept_back s r s' i d' :
  allocBuf s = (r, s') → frame_lookup (bufDescTable s') i = Some d' →
  ∃ d, frame_lookup (bufDescTable s) i = Some d ∧ kept d d'.
Proof.
  intros Hrun Hd'. apply allocBuf_kept in Hrun as (_ & _ & Hlen & Hk).
  pose proof Hd' as [Hi Hl]%frame_lookup_Some. apply lookup_lt_Some in Hl.
  destruct (frame_lookup_lt (bufDescTable s) i) as [d Hd]; [done|lia|].
  destruct (Hk i d Hd) as (d1 & Hd1 & Hkd). exists d. split; [done|]. congruence.
Qed.

(** A scan that throws has left the index alone, and the disk as well
    unless it is the removal of the victim's key that threw. *)
Lemma allocBuf_Throw_inv s e s' :
  allocBuf s = (Throw e, s') →
  hashTable s' = hashTable s ∧ (e ≠ HashNotFoundException → disk s' = disk s).
Proof.
  intros Hrun. apply allocBuf_loop_of in Hrun; [|done].
  apply allocBuf_loop_inv in Hrun as (s1 & Hs1 & Hfin).
  pose proof Hs1 as (_ & _ & Hh & Hdk & _ & _).
  destruct Hfin as [[_ ->]|[(_ & ? & _)|(_ & _ & [(_ & ? & _)|(dh & Hdh & Hfin)])]];
    [done..|].
  destruct Hfin as [(_ & ? & _)|(_ & _ & _ & [(_ & ? & _)|(_ & Hwb)])]; [done..|].
  symmetry in Hwb. apply write_back_cases in Hwb.
  destruct Hwb as [(_&?&_)|(f&_&[(_&?&_)|(pg&_&[(_&_&->)|(dk&_&
                    [(_&[= ->]&->)|(_&?&_)])])])]; done.
Qed.

Lemma still_held_refl s i d :
  frame_lookup (bufDescTable s) i = Some d → still_held s s i d.
Proof. intros Hd. exists d. by repeat split. Qed.

Lemma kept_still_held s s' i d d' :
  frame_lookup (bufDescTable s') i = Some d' → kept d d' → pinCnt d > 0 →
  bufPool s' = bufPool s → still_held s s' i d.
Proof.
  intros Hd' (?&?&?&Hpc&?&Hdt) Hpin Hp. exists d'.
  rewrite Hp. repeat split; try done; [by apply Hdt|lia].
Qed.

(** The tail shared by [readPage] and [allocPage] touches frame [fr]
    only. *)
Lemma install_other s fr f p pg r s' i :
  bind (set_page fr pg) (λ _,
  bind (hash_insert f p fr) (λ _,
  bind (get_desc fr) (λ d,
  bind (set_desc fr (Set_ f p d)) (λ _, ret fr)))) s = (r, s') →
  0 ≤ i → i ≠ fr →
  frame_lookup (bufDescTable s') i = frame_lookup (bufDescTable s) i ∧
  frame_lookup (bufPool s') i = frame_lookup (bufPool s) i.
Proof.
  unfold bind, set_page, hash_insert, get_desc, set_desc, ret. intros Hrun Hi Hne.
  destruct (frame_lookup (bufPool s) fr) as [pg0|] eqn:Hpg;
    [|by injection Hrun as <- <-].
  pose proof Hpg as [Hfr _]%frame_lookup_Some. simpl in Hrun.
  destruct (frame_lookup (bufDescTable s) fr) as [d0|] eqn:Hd0;
    injection Hrun as <- <-; simpl.
  - by rewrite !frame_lookup_update_ne.
  - by rewrite frame_lookup_update_ne.
Qed.

Lemma readPage_keeps_pinned f p s r s' i d :
  frame_lookup (bufDescTable s) i = Some d → valid d = true → pinCnt d > 0 →
  readPage f p s = (r, s') → still_held s s' i d.
Proof.
  intros Hd Hv Hpin Hrun. pose proof Hd as [Hi0 _]%frame_lookup_Some.
  destruct (hashTable s !! (f, p)) as [fr|] eqn:Hh.
  - destruct (frame_lookup (bufDescTable s) fr) as [dfr|] eqn:Hdfr.
    + rewrite (readPage_hit_run f p s fr dfr Hh Hdfr) in Hrun.
      case_decide; injection Hrun as <- <-; [|by apply still_held_refl].
      pose proof Hdfr as [Hfr0 _]%frame_lookup_Some.
      destruct (decide (fr = i)) as [->|Hne].
      * rewrite Hd in Hdfr. injection Hdfr as <-. eexists. simpl.
        split; [by eapply frame_lookup_update_eq|]. simpl.
        repeat split; try done; try lia.
      * exists d. simpl. rewrite frame_lookup_update_ne by done.
        repeat split; try done; try lia.
    + unfold readPage, try_catch, bind, hash_lookup, get_desc in Hrun.
      rewrite Hh, Hdfr in Hrun. injection Hrun as <- <-. by apply still_held_refl.
  - rewrite readPage_miss_run in Hrun by done. unfold bind at 1 in Hrun.
    destruct (allocBuf s) as [ra sa] eqn:Halloc.
    pose proof (allocBuf_kept _ _ _ Halloc) as (Hp & _ & _ & Hk).
    destruct (Hk i d Hd) as (da & Hda & Hkd).
    assert (still_held s sa i d) as Hsa by (by eapply kept_still_held).
    destruct ra as [fr| | |]; [|by injection Hrun as <- <-..].
    assert (i ≠ fr) as Hne.
    { intros ->. apply allocBuf_Ok_inv in Halloc as (d0 & d0' & Hd0 & _ & _ & _ & _ & Hc).
      rewrite Hd in Hd0. injection Hd0 as <-.
      destruct Hc as [([?|[? _]] & _)|(_ & ? & _)]; congruence. }
    unfold bind at 1, File_readPage at 1 in Hrun.
    destruct (file_readPage f p (disk sa)) as [pg|]; [|by injection Hrun as <- <-].
    apply (install_other _ _ _ _ _ _ _ i) in Hrun as [Hd' Hp']; [|done..].
    destruct Hsa as (d' & Hd1 & ?). exists d'. simpl in *.
    rewrite Hd', Hp'. by split.
Qed.

Lemma allocPage_keeps_pinned f s r s' i d :
  frame_lookup (bufDescTable s) i = Some d → valid d = true → pinCnt d > 0 →
  allocPage f s = (r, s') → still_held s s' i d.
Proof.
  intros Hd Hv Hpin. pose proof Hd as [Hi0 _]%frame_lookup_Some.
  unfold allocPage. unfold bind at 1, File_allocatePage at 1.
  destruct (file_allocatePage f (disk s)) as [[pg dk]|];
    [|intros [= <- <-]; exists d; by repeat split].
  set (s1 := with_disk dk (with_event (EvAllocate f) s)).
  assert (frame_lookup (bufDescTable s1) i = Some d) as Hd1 by done.
  unfold bind at 1. destruct (allocBuf s1) as [ra sa] eqn:Halloc.
  pose proof (allocBuf_kept _ _ _ Halloc) as (Hp & _ & _ & Hk).
  destruct (Hk i d Hd1) as (da & Hda & Hkd).
  assert (still_held s sa i d) as Hsa by (by eapply kept_still_held).
  destruct ra as [fr| | |]; [|by intros [= <- <-]..].
  assert (i ≠ fr) as Hne.
  { intros ->. apply allocBuf_Ok_inv in Halloc as (d0 & d0' & Hd0 & _ & _ & _ & _ & Hc).
    rewrite Hd1 in Hd0. injection Hd0 as <-.
    destruct Hc as [([?|[? _]] & _)|(_ & ? & _)]; congruence. }
  unfold bind, set_page, hash_insert, get_desc, set_desc, get_page, ret.
  destruct (frame_lookup (bufPool sa) fr) as [pg0|] eqn:Hpg;
    [|by intros [= <- <-]].
  pose proof Hpg as [Hfr _]%frame_lookup_Some. simpl.
  destruct Hsa as (d' & Hd' & Hrest).
  destruct (frame_lookup (bufDescTable sa) fr) as [d0|] eqn:Hd0; simpl.
  - rewrite (frame_lookup_update_eq _ _ _ _ Hpg). intros [= <- <-].
    exists d'. simpl. rewrite !frame_lookup_update_ne by done. by split.
  - intros [= <- <-]. exists d'. simpl. rewrite frame_lookup_update_ne by done.
    by split.
Qed.

(** X5. A pinned page is never evicted: a frame that holds a valid page
    with a positive pin count holds the same page, with the same bytes, the
    same dirty bit and no fewer pins, after any [readPage] and any
    [allocPage] that returns or throws. *)
Theorem pinned_frame_survives s i d :
  frame_lookup (bufDescTable s) i = Some d → valid d = true → pinCnt d > 0 →
  (∀ f p r s', readPage f p s = (r, s') → completed r → still_held s s' i d) ∧
  (∀ f r s', allocPage f s = (r, s') → completed r → still_held s s' i d).
Proof.
  intros Hd Hv Hpin. split.
  - intros f p r s' Hrun _. by eapply readPage_keeps_pinned.
  - intros f r s' Hrun _. by eapply allocPage_keeps_pinned.
Qed.

(** ** Where the index invariant is kept *)

Lemma index_invariant_update s fr d d' :
  index_invariant s → frame_lookup (bufDescTable s) fr = Some d →
  file d' = file d → pageNo d' = pageNo d → (valid d' = true → valid d = true) →
  index_invariant (with_descs (frame_update (bufDescTable s) fr d') s).
Proof.
  intros Hinv Hd Hf Hp Hv i di Hdi Hvi. simpl in *.
  pose proof Hd as [Hfr0 _]%frame_lookup_Some.
  pose proof Hdi as [Hi0 _]%frame_lookup_Some.
  destruct (decide (fr = i)) as [->|Hne].
  - rewrite (frame_lookup_update_eq _ _ _ _ Hd) in Hdi. injection Hdi as <-.
    rewrite Hf, Hp. apply (Hinv i d Hd). by apply Hv.
  - rewrite frame_lookup_update_ne in Hdi by done. by apply (Hinv i di).
Qed.

Lemma unPinPage_keeps_index f p b s r s' :
  index_invariant s → unPinPage f p b s = (r, s') → index_invariant s'.
Proof.
  intros Hinv Hrun. destruct (hashTable s !! (f, p)) as [fr|] eqn:Hh.
  - destruct (frame_lookup (bufDescTable s) fr) as [d|] eqn:Hd.
    + rewrite (unPinPage_run f p b s fr d Hh Hd) in Hrun.
      repeat case_decide; injection Hrun as <- <-; [done| |done].
      by apply (index_invariant_update s fr d).
    + unfold unPinPage, try_catch, bind, hash_lookup, get_desc in Hrun.
      rewrite Hh, Hd in Hrun. by injection Hrun as <- <-.
  - rewrite unPinPage_absent in Hrun by done. by injection Hrun as <- <-.
Qed.

Lemma disposePage_keeps_index f p s r s' :
  index_invariant s → disposePage f p s = (r, s') → index_invariant s'.
Proof.
  intros Hinv Hrun. destruct (hashTable s !! (f, p)) as [fr|] eqn:Hh.
  2:{ unfold disposePage, try_catch, bind, hash_lookup in Hrun. rewrite Hh in Hrun.
      simpl in Hrun. unfold ret in Hrun. by injection Hrun as <- <-. }
  assert (index_invariant (with_hash (delete (f, p) (hashTable s)) s) ∨
          ∃ d, frame_lookup (bufDescTable s) fr = Some d) as Hcase.
  { destruct (frame_lookup (bufDescTable s) fr) as [d|] eqn:Hd; [right; by eexists|].
    left. intros i di Hdi Hvi. simpl in *.
    destruct (Hinv i di Hdi Hvi) as (fi & Hfi & Hhi). exists fi. split; [done|].
    rewrite lookup_delete_ne; [done|]. intros Heq. rewrite <- Heq in Hhi.
    rewrite Hh in Hhi. injection Hhi as ->. congruence. }
  assert (∀ i di, frame_lookup (bufDescTable s) i = Some di → valid di = true →
            i ≠ fr → ∃ fi, file di = Some fi ∧
              delete (f, p) (hashTable s) !! (fi, pageNo di) = Some i) as Hothers.
  { intros i di Hdi Hvi Hne. destruct (Hinv i di Hdi Hvi) as (fi & Hfi & Hhi).
    exists fi. split; [done|]. rewrite lookup_delete_ne; [done|].
    intros Heq. rewrite <- Heq in Hhi. rewrite Hh in Hhi. by injection Hhi as ->. }
  unfold disposePage, try_catch, bind, hash_lookup, hash_remove, get_desc, set_desc,
    File_deletePage, ret in Hrun.
  rewrite Hh in Hrun. simpl in Hrun. rewrite Hh in Hrun. simpl in Hrun.
  destruct (frame_lookup (bufDescTable s) fr) as [d|] eqn:Hd; simpl in Hrun.
  2:{ injection Hrun as <- <-. by destruct Hcase as [?|[? ?]]. }
  pose proof Hd as [Hfr0 _]%frame_lookup_Some.
  assert (index_invariant (with_descs (frame_update (bufDescTable s) fr (Clear d))
                             (with_hash (delete (f, p) (hashTable s)) s))) as Hs1.
  { intros i di Hdi Hvi. simpl in *. pose proof Hdi as [Hi0 _]%frame_lookup_Some.
    destruct (decide (fr = i)) as [->|Hne].
    - rewrite (frame_lookup_update_eq _ _ _ _ Hd) in Hdi. by injection Hdi as <-.
    - rewrite frame_lookup_update_ne in Hdi by done. by apply Hothers. }
  destruct (file_deletePage f p (disk s)) as [dk|]; simpl in Hrun;
    by injection Hrun as <- <-.
Qed.

(** After [allocBuf] has handed out frame [fr], every other valid frame is
    still where the index says, and no key has been added. *)
Lemma allocBuf_Ok_index s fr sa :
  index_invariant s → allocBuf s = (Ok fr, sa) →
  (∀ key, hashTable s !! key = None → hashTable sa !! key = None) ∧
  ∀ i d, frame_lookup (bufDescTable sa) i = Some d → i ≠ fr → valid d = true →
    ∃ f, file d = Some f ∧ hashTable sa !! (f, pageNo d) = Some i.
Proof.
  intros Hinv Halloc.
  pose proof (allocBuf_Ok_inv _ _ _ Halloc) as (d0 & d0' & Hd0 & _ & _ & _ & _ & Hcase).
  assert (hashTable sa = hashTable s ∨
          ∃ f0, valid d0 = true ∧ file d0 = Some f0 ∧
            hashTable sa = delete (f0, pageNo d0) (hashTable s)) as Hh.
  { destruct Hcase as [(_ & _ & ? & _)|(? & _ & _ & _ & f0 & pg & dk & ? & _ & _ & ? & _)];
      [by left|right; by exists f0]. }
  split.
  - intros key Hk. destruct Hh as [->|(f0 & _ & _ & ->)]; [done|].
    rewrite lookup_delete_None. by right.
  - intros i d Hd Hne Hv.
    destruct (allocBuf_kept_back _ _ _ _ _ Halloc Hd) as (ds & Hds & Hk).
    destruct Hk as (Hf & Hp & _ & _ & Hvs & _).
    destruct (Hinv i ds Hds) as (f & Hfs & Hhs); [congruence|].
    exists f. split; [congruence|]. rewrite Hp.
    destruct Hh as [->|(f0 & Hv0 & Hf0 & ->)]; [done|].
    rewrite lookup_delete_ne; [done|]. intros Heq. rewrite <- Heq in Hhs.
    destruct (Hinv fr d0 Hd0 Hv0) as (f0' & Hf0' & Hh0).
    rewrite Hf0 in Hf0'. injection Hf0' as <-. congruence.
Qed.

Lemma install_index (sa : St) fr f p d0 pg :
  frame_lookup (bufDescTable sa) fr = Some d0 →
  hashTable sa !! (f, p) = None →
  (∀ i d, frame_lookup (bufDescTable sa) i = Some d → i ≠ fr → valid d = true →
     ∃ f', file d = Some f' ∧ hashTable sa !! (f', pageNo d) = Some i) →
  index_invariant
    (with_descs (frame_update (bufDescTable sa) fr (Set_ f p d0))
       (with_hash (<[(f, p) := fr]> (hashTable sa))
          (with_pool (frame_update (bufPool sa) fr pg) sa))).
Proof.
  intros Hd0 Hfresh Hothers i d Hd Hv. simpl in *.
  pose proof Hd0 as [Hfr0 _]%frame_lookup_Some.
  pose proof Hd as [Hi0 _]%frame_lookup_Some.
  destruct (decide (fr = i)) as [->|Hne].
  - rewrite (frame_lookup_update_eq _ _ _ _ Hd0) in Hd. injection Hd as <-.
    exists f. split; [done|]. simpl. apply lookup_insert_eq.
  - rewrite frame_lookup_update_ne in Hd by done.
    destruct (Hothers i d Hd) as (f' & Hf' & Hh'); [done..|].
    exists f'. split; [done|]. rewrite lookup_insert_ne; [done|].
    intros Heq. rewrite <- Heq in Hh'. congruence.
Qed.

Lemma allocBuf_exceeded_keeps_index s sa :
  index_invariant s → allocBuf s = (Throw BufferExceededException, sa) →
  index_invariant sa.
Proof.
  intros Hinv Halloc i d Hd Hv.
  destruct (allocBuf_kept_back _ _ _ _ _ Halloc Hd) as (ds & Hds & Hk).
  destruct Hk as (Hf & Hp & _ & _ & Hvs & _).
  destruct (Hinv i ds Hds) as (f & Hfs & Hhs); [congruence|].
  apply allocBuf_Throw_inv in Halloc as [Hh _].
  exists f. split; [congruence|]. by rewrite Hh, Hp.
Qed.

Lemma readPage_keeps_index f p s r s' :
  index_invariant s → readPage f p s = (r, s') →
  (∃ fr, r = Ok fr) ∨ r = Throw BufferExceededException →
  index_invariant s'.
Proof.
  intros Hinv Hrun Hr. destruct (hashTable s !! (f, p)) as [fr|] eqn:Hh.
  - destruct (frame_lookup (bufDescTable s) fr) as [d|] eqn:Hd.
    + rewrite (readPage_hit_run f p s fr d Hh Hd) in Hrun.
      case_decide; injection Hrun as <- <-; [|done].
      by apply (index_invariant_update s fr d).
    + unfold readPage, try_catch, bind, hash_lookup, get_desc in Hrun.
      rewrite Hh, Hd in Hrun. by injection Hrun as <- <-.
  - rewrite readPage_miss_run in Hrun by done. unfold bind at 1 in Hrun.
    destruct (allocBuf s) as [ra sa] eqn:Halloc.
    destruct ra as [fr|e| |].
    + destruct (allocBuf_Ok_index _ _ _ Hinv Halloc) as [Hnone Hothers].
      unfold bind, File_readPage, set_page, hash_insert, get_desc, set_desc, ret in Hrun.
      destruct (file_readPage f p (disk sa)) as [pg|];
        [|injection Hrun as <- <-; by destruct Hr as [[? ?]|?]].
      simpl in Hrun.
      destruct (frame_lookup (bufPool sa) fr) as [pg0|];
        [|injection Hrun as <- <-; by destruct Hr as [[? ?]|?]].
      simpl in Hrun.
      destruct (frame_lookup (bufDescTable sa) fr) as [d0|] eqn:Hd0;
        [|injection Hrun as <- <-; by destruct Hr as [[? ?]|?]].
      injection Hrun as <- <-.
      apply (install_index (with_event (EvRead f p) sa)); simpl; [done|by apply Hnone|done].
    + injection Hrun as <- <-. destruct Hr as [[? ?]|[= ->]]; [done|].
      by apply (allocBuf_exceeded_keeps_index s).
    + injection Hrun as <- <-. by destruct Hr as [[? ?]|?].
    + injection Hrun as <- <-. by destruct Hr as [[? ?]|?].
Qed.

Lemma allocPage_keeps_index f s r s' :
  index_invariant s → allocPage f s = (r, s') →
  (∃ x, r = Ok x) ∨ r = Throw BufferExceededException →
  (∀ pg dk, file_allocatePage f (disk s) = Some (pg, dk) →
            hashTable s !! (f, page_number pg) = None) →
  index_invariant s'.
Proof.
  intros Hinv Hrun Hr Hfresh. unfold allocPage in Hrun.
  unfold bind at 1, File_allocatePage at 1 in Hrun.
  destruct (file_allocatePage f (disk s)) as [[pg dk]|];
    [|injection Hrun as <- <-; by destruct Hr as [[? ?]|?]].
  specialize (Hfresh pg dk eq_refl).
  set (s1 := with_disk dk (with_event (EvAllocate f) s)) in *.
  assert (index_invariant s1) as Hinv1 by done.
  unfold bind at 1 in Hrun. destruct (allocBuf s1) as [ra sa] eqn:Halloc.
  destruct ra as [fr|e| |].
  - destruct (allocBuf_Ok_index _ _ _ Hinv1 Halloc) as [Hnone Hothers].
    unfold bind, set_page, hash_insert, get_desc, set_desc, get_page, ret in Hrun.
    destruct (frame_lookup (bufPool sa) fr) as [pg0|] eqn:Hpg;
      [|injection Hrun as <- <-; by destruct Hr as [[? ?]|?]].
    simpl in Hrun.
    destruct (frame_lookup (bufDescTable sa) fr) as [d0|] eqn:Hd0;
      [|injection Hrun as <- <-; by destruct Hr as [[? ?]|?]].
    simpl in Hrun. rewrite (frame_lookup_update_eq _ _ _ _ Hpg) in Hrun.
    injection Hrun as <- <-.
    apply install_index; [done|by apply Hnone|done].
  - injection Hrun as <- <-. destruct Hr as [[? ?]|[= ->]]; [done|].
    by apply (allocBuf_exceeded_keeps_index s1).
  - injection Hrun as <- <-. by destruct Hr as [[? ?]|?].
  - injection Hrun as <- <-. by destruct Hr as [[? ?]|?].
Qed.

(** X6. The index invariant (every valid frame is where the index says
    its page is) is kept by [unPinPage] and [disposePage] whatever they
    do, and by [readPage] and [allocPage] whenever they return a frame or
    throw BufferExceeded, provided the page number a new page gets is not
    in the index already. *)
Theorem index_invariant_kept s :
  index_invariant s →
  (∀ f p b r s', unPinPage f p b s = (r, s') → index_invariant s') ∧
  (∀ f p r s', disposePage f p s = (r, s') → index_invariant s') ∧
  (∀ f p r s', readPage f p s = (r, s') →
     (∃ fr, r = Ok fr) ∨ r = Throw BufferExceededException → index_invariant s') ∧
  (∀ f r s', allocPage f s = (r, s') →
     (∃ x, r = Ok x) ∨ r = Throw BufferExceededException →
     (∀ pg dk, file_allocatePage f (disk s) = Some (pg, dk) →
               hashTable s !! (f, page_number pg) = None) →
     index_invariant s').
Proof.
  intros Hinv. split; [|split; [|split]].
  - intros f p b r s'. by apply unPinPage_keeps_index.
  - intros f p r s'. by apply disposePage_keeps_index.
  - intros f p r s'. by apply readPage_keeps_index.
  - intros f r s'. by apply allocPage_keeps_index.
Qed.

(** ** allocPage *)

Lemma allocBuf_exceeded_inv s s' :
  allocBuf s = (Throw BufferExceededException, s') → scanned s s'.
Proof.
  intros Hrun. apply allocBuf_loop_of in Hrun; [|done].
  apply allocBuf_loop_inv in Hrun as (s1 & Hs1 & Hfin).
  destruct Hfin as [[_ ->]|[(_ & ? & _)|(_ & _ & [(_ & ? & _)|(dh & Hdh & Hfin)])]];
    [done..|].
  destruct Hfin as [(_ & ? & _)|(_ & _ & _ & [(_ & ? & _)|(_ & Hwb)])]; [done..|].
  symmetry in Hwb. apply write_back_cases in Hwb.
  destruct Hwb as [(_&?&_)|(f&_&[(_&?&_)|(pg&_&[(_&?&_)|(dk&_&[(_&?&_)|(_&?&_)])])])]; done.
Qed.

(** X7. When [allocPage] returns page number [pn] and frame [fr], the file
    has allocated a page with that number, the frame holds it, the index
    maps (file, [pn]) to the frame, and the descriptor is that of a fresh
    page with one pin. The file was asked to allocate once and never to
    read. *)
Theorem allocPage_installs_new_page f s pn fr s' :
  allocPage f s = (Ok (pn, fr), s') →
  ∃ pg dk, file_allocatePage f (disk s) = Some (pg, dk) ∧ pn = page_number pg ∧
    hashTable s' !! (f, pn) = Some fr ∧
    frame_lookup (bufPool s') fr = Some pg ∧
    (∃ d', frame_lookup (bufDescTable s') fr = Some d' ∧
       pinCnt d' = 1 ∧ refbit d' = true ∧ dirty d' = false ∧
       file d' = Some f ∧ pageNo d' = pn ∧ valid d' = true) ∧
    ∃ w, io_log s' = io_log s ++ EvAllocate f :: w ∧ reads w = 0%nat ∧
         (length w ≤ 1)%nat.
Proof.
  unfold allocPage. unfold bind at 1, File_allocatePage at 1.
  destruct (file_allocatePage f (disk s)) as [[pg dk]|]; [|done].
  set (s1 := with_disk dk (with_event (EvAllocate f) s)).
  unfold bind at 1. destruct (allocBuf s1) as [ra sa] eqn:Halloc.
  destruct ra as [fr0| | |]; [|done..].
  destruct (allocBuf_log _ _ _ Halloc) as (w & Hw & Hw0 & Hw1).
  unfold bind, set_page, hash_insert, get_desc, set_desc, get_page, ret.
  destruct (frame_lookup (bufPool sa) fr0) as [pg0|] eqn:Hpg; [|done]. simpl.
  destruct (frame_lookup (bufDescTable sa) fr0) as [d0|] eqn:Hd0; [|done]. simpl.
  rewrite (frame_lookup_update_eq _ _ _ _ Hpg).
  intros [= <- <- <-]. exists pg, dk. simpl.
  split; [done|]. split; [done|]. split; [apply lookup_insert_eq|].
  split; [by eapply frame_lookup_update_eq|]. split.
  - eexists. split; [by eapply frame_lookup_update_eq|done].
  - exists w. rewrite Hw. simpl. by rewrite <- app_assoc.
Qed.

(** X8. [allocPage] asks the file for the page before it looks for a
    frame. When the file refuses, only the log has changed. When every
    frame is pinned, the call throws BufferExceeded with the page already
    allocated in the file and neither the index nor the pool aware of
    it. *)
Theorem allocPage_failures f s :
  (file_allocatePage f (disk s) = None →
     allocPage f s = (Throw FileException, with_event (EvAllocate f) s)) ∧
  (∀ pg dk, file_allocatePage f (disk s) = Some (pg, dk) →
     pool_wf s → numBufs s + 1 < UINT32_MODULUS → all_pinned s →
     ∃ s', allocPage f s = (Throw BufferExceededException, s') ∧
       disk s' = dk ∧ io_log s' = io_log s ++ [EvAllocate f] ∧
       hashTable s' = hashTable s ∧ bufPool s' = bufPool s).
Proof.
  split.
  - intros Hnone. unfold allocPage. unfold bind at 1, File_allocatePage at 1.
    by rewrite Hnone.
  - intros pg dk Hsome Hwf Hbound Hpinned.
    set (s1 := with_disk dk (with_event (EvAllocate f) s)).
    destruct (allocBuf_all_pinned s1) as [s' Hfull]; [done..|].
    assert (allocBuf s1 = (Throw BufferExceededException, s')) as Halloc.
    { unfold allocBuf. by rewrite Hfull. }
    exists s'. split.
    + unfold allocPage. unfold bind at 1, File_allocatePage at 1. rewrite Hsome.
      unfold bind at 1. fold s1. by rewrite Halloc.
    + by apply allocBuf_exceeded_inv in Halloc as (_ & ? & ? & ? & ? & _).
Qed.

(** ** readPage when the file cannot be read *)

(** X9. A miss first takes a frame and then reads. When the read throws,
    the exception leaves [readPage] with the requested page not in the
    index, but the eviction is not undone: a dirty victim has been written
    back and taken out of the index while its descriptor still says it is
    valid. *)
Theorem readPage_read_failure f p s fr sa :
  hashTable s !! (f, p) = None → allocBuf s = (Ok fr, sa) →
  file_readPage f p (disk sa) = None →
  readPage f p s = (Throw FileException, with_event (EvRead f p) sa) ∧
  hashTable sa !! (f, p) = None ∧
  ∀ d, frame_lookup (bufDescTable s) fr = Some d → valid d = true →
    dirty d = true →
    ∃ f0 d', file d = Some f0 ∧ frame_lookup (bufDescTable sa) fr = Some d' ∧
      valid d' = true ∧ file d' = Some f0 ∧ pageNo d' = pageNo d ∧
      hashTable sa !! (f0, pageNo d) = None.
Proof.
  intros Hh Halloc Hread. split; [|split].
  - rewrite readPage_miss_run by done. unfold bind at 1. rewrite Halloc.
    unfold bind at 1, File_readPage at 1. by rewrite Hread.
  - apply allocBuf_Ok_inv in Halloc as (d & d' & _ & _ & _ & _ & _ & Hcase).
    destruct Hcase as [(_ & _ & -> & _)
                      |(_ & _ & _ & _ & f' & pg' & dk & _ & _ & _ & -> & _)]; [done|].
    rewrite lookup_delete_None. by right.
  - intros d Hd Hv Hdt.
    apply allocBuf_Ok_inv in Halloc as (d0 & d' & Hd0 & Hd' & _ & _ & _ & Hcase).
    rewrite Hd in Hd0. injection Hd0 as <-.
    destruct Hcase as [([?|[_ ?]] & _)
                      |(_ & _ & _ & Hrel & f0 & pg' & dk & Hf0 & _ & _ & -> & _)];
      [congruence..|].
    destruct Hrel as (Hf & Hp & _ & _ & _ & Hv' & _). simpl in *.
    exists f0, d'. repeat split; try congruence. apply lookup_delete_eq.
Qed.

(** ** Fetch and unpin *)

(** X10. Fetching a resident page whose pin count is not negative and
    is below [INT_MAX], and unpinning it again without marking it dirty,
    puts the pool back as it was, except that the reference bit of the
    frame is now set. *)
Theorem readPage_unPinPage_round_trip f p s fr d :
  hashTable s !! (f, p) = Some fr →
  frame_lookup (bufDescTable s) fr = Some d → 0 ≤ pinCnt d < INT_MAX →
  bind (readPage f p) (λ _, unPinPage f p false) s =
    (Ok tt, with_descs (frame_update (bufDescTable s) fr (with_refbit true d)) s).
Proof.
  intros Hh Hd Hpin. pose proof INT_range as [Hmin Hmax].
  unfold bind at 1. rewrite (readPage_hit f p s fr d Hh Hd) by lia.
  set (d1 := with_refbit true (with_pinCnt (pinCnt d + 1) d)).
  rewrite (unPinPage_run f p false _ fr d1); [|done|by eapply frame_lookup_update_eq].
  rewrite decide_False by (simpl; lia). rewrite decide_True by (simpl; lia).
  unfold with_descs, frame_update. simpl. rewrite list_insert_insert_eq.
  do 3 f_equal. unfold with_dirty, with_pinCnt, with_refbit, d1. simpl.
  f_equal. lia.
Qed.

(** ** disposePage *)

(** X11. [disposePage] never throws and does not look at the pin count.
    Afterwards the page is not in the index, so any [unPinPage] of it does
    nothing; a page that was resident has its frame cleared, pinned or
    not. *)
Theorem disposePage_drops_page f p s r s' :
  disposePage f p s = (r, s') →
  (∀ e, r ≠ Throw e) ∧ r ≠ Diverges ∧
  hashTable s' !! (f, p) = None ∧
  (∀ b, unPinPage f p b s' = (Ok tt, s')) ∧
  ∀ fr d, hashTable s !! (f, p) = Some fr →
    frame_lookup (bufDescTable s) fr = Some d →
    r = Ok tt ∧ frame_lookup (bufDescTable s') fr = Some (Clear d).
Proof.
  intros Hrun.
  assert ((∀ e, r ≠ Throw e) ∧ r ≠ Diverges ∧ hashTable s' !! (f, p) = None ∧
          ∀ fr d, hashTable s !! (f, p) = Some fr →
            frame_lookup (bufDescTable s) fr = Some d →
            r = Ok tt ∧ frame_lookup (bufDescTable s') fr = Some (Clear d))
    as (Hthrow & Hdiv & Hgone & Hres).
  { destruct (hashTable s !! (f, p)) as [fr|] eqn:Hh.
    - destruct (frame_lookup (bufDescTable s) fr) as [d|] eqn:Hd.
      + destruct (disposePage_resident f p s fr d Hh Hd)
          as (s1 & Hrun1 & Hh1 & Hd1 & _ & _).
        rewrite Hrun1 in Hrun. injection Hrun as <- <-.
        split; [done|]. split; [done|]. split; [rewrite Hh1; apply lookup_delete_eq|].
        intros fr' d' [= <-] Hd'. rewrite Hd in Hd'. injection Hd' as <-.
        split; [done|]. rewrite Hd1. by eapply frame_lookup_update_eq.
      + unfold disposePage, try_catch, bind, hash_lookup, hash_remove, get_desc in Hrun.
        rewrite Hh in Hrun. simpl in Hrun. rewrite Hh in Hrun. simpl in Hrun.
        rewrite Hd in Hrun.
        injection Hrun as <- <-. simpl.
        split; [done|]. split; [done|]. split; [apply lookup_delete_eq|].
        intros fr' d' [= <-] Hd'. congruence.
    - unfold disposePage, try_catch, bind, hash_lookup in Hrun. rewrite Hh in Hrun.
      simpl in Hrun. unfold ret in Hrun. injection Hrun as <- <-. by repeat split. }
  do 3 (split; [done|]). split; [|done]. intros b. by apply unPinPage_absent.
Qed.

(** ** What a successful flush has done *)

Lemma flush_write_of_ext f s s1 i :
  bufDescTable s1 = bufDescTable s → bufPool s1 = bufPool s →
  flush_write_of f s1 i = flush_write_of f s i.
Proof. intros Hd Hp. unfold flush_write_of. by rewrite Hd, Hp. Qed.

Lemma flush_key_of_ext f s s1 i :
  bufDescTable s1 = bufDescTable s → flush_key_of f s1 i = flush_key_of f s i.
Proof. intros Hd. unfold flush_key_of. by rewrite Hd. Qed.

Lemma flush_write_of_not_owned f s i d :
  frame_lookup (bufDescTable s) i = Some d → file d ≠ Some f →
  flush_write_of f s i = [].
Proof.
  intros Hd Hno. unfold flush_write_of. rewrite Hd.
  destruct (frame_lookup (bufPool s) i); [|done]. by rewrite decide_False.
Qed.

Lemma flush_write_of_clean f s i d :
  frame_lookup (bufDescTable s) i = Some d → dirty d = false →
  flush_write_of f s i = [].
Proof.
  intros Hd Hdt. unfold flush_write_of. rewrite Hd, Hdt.
  destruct (frame_lookup (bufPool s) i); [|done]. by case_decide.
Qed.

Lemma flush_write_of_dirty f s i d pg :
  frame_lookup (bufDescTable s) i = Some d →
  frame_lookup (bufPool s) i = Some pg → file d = Some f → dirty d = true →
  flush_write_of f s i = [EvWrite f pg].
Proof.
  intros Hd Hpg Hf Hdt. unfold flush_write_of. rewrite Hd, Hpg, Hdt.
  by rewrite decide_True.
Qed.

Lemma flush_key_of_not_owned f s i d :
  frame_lookup (bufDescTable s) i = Some d → file d ≠ Some f →
  flush_key_of f s i = [].
Proof. intros Hd Hno. unfold flush_key_of. rewrite Hd. by rewrite decide_False. Qed.

Lemma flush_key_of_owned f s i d :
  frame_lookup (bufDescTable s) i = Some d → file d = Some f →
  flush_key_of f s i = [(f, pageNo d)].
Proof. intros Hd Hf. unfold flush_key_of. rewrite Hd. by rewrite decide_True. Qed.

Lemma flushFile_loop_exact f idx : ∀ s s',
  flushFile_loop f idx s = (Ok tt, s') →
  io_log s' = io_log s ++ concat (flush_write_of f s <$> idx) ∧
  ∀ key, hashTable s' !! key =
         if decide (key ∈ concat (flush_key_of f s <$> idx)) then None
         else hashTable s !! key.
Proof.
  induction idx as [|i idx IH]; intros s s' Hrun; simpl in Hrun.
  { injection Hrun as <-. split; [simpl; by rewrite app_nil_r|].
    intros key. rewrite decide_False; [done|]. simpl. apply not_elem_of_nil. }
  unfold bind in Hrun.
  destruct (flushFile_body f i s) as [[[]| | |] s1] eqn:Hbody; [|done..].
  apply IH in Hrun as [Hlog Hhash].
  apply flushFile_body_cases in Hbody.
  destruct Hbody as [(_ & ? & _)|(d & Hd & Hcase)]; [done|].
  assert (bufDescTable s1 = bufDescTable s ∧ bufPool s1 = bufPool s ∧
          io_log s1 = io_log s ++ flush_write_of f s i ∧
          ∀ key, hashTable s1 !! key =
                 if decide (key ∈ flush_key_of f s i) then None
                 else hashTable s !! key) as (Hds & Hpl & Hlog1 & Hhash1).
  { destruct Hcase as [(_ & ? & _)|[(Hv & Hno & _ & ->)|[(_ & _ & _ & ? & _)|
      [(Hv & Hf & Hpin & Hdt & [(_ & ? & _)|(Hkey & _ & ->)])
      |(Hv & Hf & Hpin & Hdt & Hw)]]]]; try done.
    - rewrite (flush_write_of_not_owned f s i d Hd Hno).
      rewrite (flush_key_of_not_owned f s i d Hd Hno).
      do 2 (split; [done|]). split; [by rewrite app_nil_r|].
      intros key. rewrite decide_False; [done|]. apply not_elem_of_nil.
    - rewrite (flush_write_of_clean f s i d Hd Hdt).
      rewrite (flush_key_of_owned f s i d Hd Hf).
      do 2 (split; [done|]). split; [by rewrite app_nil_r|].
      intros key. simpl. case_decide as Hk.
      + apply list_elem_of_singleton in Hk as ->. apply lookup_delete_eq.
      + rewrite lookup_delete_ne; [done|]. intros <-. apply Hk.
        by apply list_elem_of_singleton.
    - destruct Hw as [(_ & ? & _)|(pg & Hpg & [(_ & ? & _)|(dk & _ &
                        [(_ & ? & _)|(_ & _ & ->)])])]; try done.
      rewrite (flush_write_of_dirty f s i d pg Hd Hpg Hf Hdt).
      rewrite (flush_key_of_owned f s i d Hd Hf).
      do 2 (split; [done|]). split; [done|].
      intros key. simpl. case_decide as Hk.
      + apply list_elem_of_singleton in Hk as ->. apply lookup_delete_eq.
      + rewrite lookup_delete_ne; [done|]. intros <-. apply Hk.
        by apply list_elem_of_singleton. }
  assert (flush_write_of f s1 <$> idx = flush_write_of f s <$> idx) as Hw.
  { apply list_fmap_ext. intros ? j _. by apply flush_write_of_ext. }
  assert (flush_key_of f s1 <$> idx = flush_key_of f s <$> idx) as Hk.
  { apply list_fmap_ext. intros ? j _. by apply flush_key_of_ext. }
  rewrite Hw in Hlog. rewrite Hk in Hhash. split.
  - rewrite Hlog, Hlog1. simpl. by rewrite <- app_assoc.
  - intros key. rewrite Hhash.
    change (concat (flush_key_of f s <$> i :: idx))
      with (flush_key_of f s i ++ concat (flush_key_of f s <$> idx)).
    destruct (decide (key ∈ flush_key_of f s i ++ concat (flush_key_of f s <$> idx)))
      as [Hin|Hnin].
    + apply elem_of_app in Hin as [Hin|Hin].
      * case_decide; [done|]. rewrite Hhash1. by rewrite decide_True.
      * by rewrite decide_True.
    + apply not_elem_of_app in Hnin as [Hn1 Hn2].
      rewrite decide_False by done. rewrite Hhash1. by rewrite decide_False.
Qed.

(** X12. A flush that returns has called [writePage] exactly on the dirty
    frames of the file, once each and in frame order, and nothing else on
    any file; it has taken exactly the keys of the file's frames out of
    the index and left every other key as it was. *)
Theorem flushFile_exact_effect f s s' :
  flushFile f s = (Ok tt, s') →
  io_log s' = io_log s ++ flush_writes f s ∧
  (∀ key, hashTable s' !! key =
          if decide (key ∈ flush_keys f s) then None else hashTable s !! key) ∧
  bufPool s' = bufPool s ∧ clockHand s' = clockHand s.
Proof.
  intros Hrun. unfold flushFile in Hrun.
  pose proof (flushFile_loop_exact _ _ _ _ Hrun) as [Hlog Hhash].
  apply flushFile_loop_Ok in Hrun as (_ & Hp & _ & Hc & _).
  by repeat split.
Qed.

(** ** Filling a fresh pool *)

Lemma allocBuf_filled N (d0 : Disk) k s :
  0 < N < UINT32_MODULUS → filled N d0 k s → (k < Z.to_nat N)%nat →
  ∃ d, bufDescTable s !! k = Some d ∧
    allocBuf s = (Ok (Z.of_nat k), with_clock (Z.of_nat k) s).
Proof.
  intros HN (Hn & Hld & Hlp & Hdk & Hc & Hds) Hk.
  destruct (lookup_lt_is_Some_2 (bufDescTable s) k) as [d Hd]; [lia|].
  exists d. split; [done|].
  assert (valid d = false) as Hv by (apply (Hds k d Hd); lia).
  assert (wrap32 (clockHand s + 1) `mod` numBufs s = Z.of_nat k) as Hhand.
  { rewrite next_hand; [|rewrite Hc, Hn; case_decide; lia|lia].
    rewrite Hc, Hn. repeat case_decide; lia. }
  unfold allocBuf, allocBuf_fuel.
  destruct (Z.to_nat (2 * numBufs s + 1)) as [|fuel] eqn:Hfuel; [lia|].
  simpl. rewrite decide_True by lia.
  unfold advanceClock. rewrite decide_False by lia. rewrite Hhand. simpl.
  by rewrite frame_lookup_of_nat, Hd, Hv.
Qed.

Lemma readPage_filled_run N (d0 : Disk) k s f p pg :
  0 < N < UINT32_MODULUS → filled N d0 k s → (k < Z.to_nat N)%nat →
  hashTable s !! (f, p) = None → file_readPage f p d0 = Some pg →
  ∃ d, bufDescTable s !! k = Some d ∧
    readPage f p s =
      (Ok (Z.of_nat k),
       with_descs (<[k := Set_ f p d]> (bufDescTable s))
         (with_hash (<[(f, p) := Z.of_nat k]> (hashTable s))
            (with_pool (<[k := pg]> (bufPool s))
               (with_event (EvRead f p) (with_clock (Z.of_nat k) s))))).
Proof.
  intros HN Hfill Hk Hh Hread.
  destruct (allocBuf_filled N d0 k s HN Hfill Hk) as (d & Hd & Halloc).
  destruct Hfill as (Hn & Hld & Hlp & Hdk & Hc & Hds).
  destruct (lookup_lt_is_Some_2 (bufPool s) k) as [pg0 Hpg0]; [lia|].
  exists d. split; [done|].
  rewrite readPage_miss_run by done.
  unfold bind, File_readPage, set_page, hash_insert, get_desc, set_desc, ret.
  rewrite Halloc. simpl. rewrite Hdk, Hread. simpl.
  rewrite frame_lookup_of_nat, Hpg0. simpl.
  rewrite frame_lookup_of_nat, Hd.
  unfold frame_update. by rewrite Nat2Z.id.
Qed.

Lemma fetch_all_loads N (d0 : Disk) rest : ∀ done s,
  0 < N < UINT32_MODULUS →
  filled N d0 (length done) s → loaded d0 done s →
  NoDup rest → (length done + length rest ≤ Z.to_nat N)%nat →
  (∀ key, key ∈ rest → hashTable s !! key = None) →
  (∀ key, key ∈ rest → is_Some (file_readPage key.1 key.2 d0)) →
  ∃ s', fetch_all rest s = (Ok tt, s') ∧ loaded d0 (done ++ rest) s'.
Proof.
  induction rest as [|[f p] rest IH];
    intros done s HN Hfill Hload Hnd Hlen Hfresh Hread.
  { exists s. by rewrite app_nil_r. }
  simpl in Hlen. apply NoDup_cons in Hnd as [Hnotin Hnd].
  destruct (Hread (f, p)) as [pg Hpg]; [by left|]. simpl in Hpg.
  assert (hashTable s !! (f, p) = None) as Hh by (apply Hfresh; by left).
  destruct (readPage_filled_run N d0 (length done) s f p pg)
    as (d & Hd & Hrun); [done|done|lia|done|done|].
  destruct (readPage_fills N d0 (length done) s f p) as (s1 & Hrun1 & Hfill1 & Hh1);
    [done|done|lia|done|by eexists|].
  rewrite Hrun in Hrun1. injection Hrun1 as Hs1.
  destruct (IH (done ++ [(f, p)]) s1) as (s' & Hrest & Hload'); try done.
  - rewrite length_app. simpl. by rewrite Nat.add_1_r.
  - destruct Hload as [Hlog Hpages]. subst s1. split.
    + simpl. rewrite Hlog, fmap_app. done.
    + intros j f' p' Hj. simpl.
      apply lookup_snoc_Some in Hj as [[Hlt Hj]|[-> [= <- <-]]].
      * destruct (Hpages j f' p' Hj) as (Hhj & Hdj & Hpj).
        split; [|split].
        -- rewrite lookup_insert_ne; [done|]. intros Heq.
           injection Heq as Hf Hp. subst f' p'.
           by pose proof (eq_trans (eq_sym Hhj) Hh).
        -- by rewrite list_lookup_insert_ne by lia.
        -- by rewrite list_lookup_insert_ne by lia.
      * split; [apply lookup_insert_eq|]. split.
        -- exists (Set_ f p d).
           rewrite list_lookup_insert_eq by (by eapply lookup_lt_Some). done.
        -- exists pg. split; [done|].
           destruct Hfill as (_ & _ & Hlp & _).
           rewrite list_lookup_insert_eq by lia. done.
  - rewrite length_app. simpl. lia.
  - intros key Hkey. rewrite Hh1, lookup_insert_ne.
    + apply Hfresh. by right.
    + intros <-. done.
  - intros key Hkey. apply Hread. by right.
  - exists s'. split.
    + simpl. unfold bind. by rewrite Hrun, Hs1.
    + by rewrite <- app_assoc in Hload'.
Qed.

(** X13. A pool that the constructor has built takes the first fetches
    in frame order: distinct pages, no more than [numBufs] of them and
    readable, all fetch successfully; the [j]-th lands in frame [j],
    pinned once and clean, with the bytes the file returned; and the file
    has seen exactly one read per page, in order, and no write. *)
Theorem fresh_pool_loads_in_frame_order N (d0 : Disk) s0 pages :
  0 < N < UINT32_MODULUS → BufMgr_new N d0 = (Ok tt, s0) →
  NoDup pages → (length pages ≤ Z.to_nat N)%nat →
  (∀ key, key ∈ pages → is_Some (file_readPage key.1 key.2 d0)) →
  ∃ s, fetch_all pages s0 = (Ok tt, s) ∧ loaded d0 pages s.
Proof.
  intros HN [_ ->]%BufMgr_new_Ok Hnd Hlen Hread.
  assert (loaded d0 [] (BufMgr_new N d0).2) as Hempty.
  { split; [done|]. intros j f p Hj. by rewrite lookup_nil in Hj. }
  destruct (fetch_all_loads N d0 pages [] (BufMgr_new N d0).2) as (s & Hrun & Hload);
    [done|by apply filled_new|done|done|simpl; lia|intros; apply lookup_empty|done|].
  by exists s.
Qed.

(** ** Giving up with a frame to spare *)

Lemma others_pinned_clock s j c :
  others_pinned_unreferenced s j → others_pinned_unreferenced (with_clock c s) j.
Proof. done. Qed.

(** Past the frame [j]: the hand has more pinned frames to skip before it
    is back on [j] than the counter allows. *)
Lemma allocBuf_loop_gives_up fuel j : ∀ count s r s',
  pool_safe s → numBufs s + 1 < UINT32_MODULUS →
  others_pinned_unreferenced s j → 0 ≤ j < numBufs s → 0 ≤ count →
  count + hand_distance s j > numBufs s →
  allocBuf_loop fuel count s = Some (r, s') →
  r = Throw BufferExceededException.
Proof.
  induction fuel as [|fuel IH];
    intros count s r s' Hsafe Hbound Hothers Hj Hcount Hdist Hrun; simpl in Hrun.
  { case_decide; [done|]. by injection Hrun as <- _. }
  case_decide as Hle; [|by injection Hrun as <- _].
  pose proof Hsafe as (Hn & _ & _ & Hc & _ & _).
  unfold advanceClock in Hrun. rewrite decide_False in Hrun by lia.
  rewrite next_hand in Hrun by lia.
  set (hand := if decide (clockHand s + 1 = numBufs s) then 0 else clockHand s + 1) in *.
  unfold hand_distance in Hdist.
  assert (0 ≤ hand < numBufs s) as Hhand by (unfold hand; repeat case_decide; lia).
  assert (hand ≠ j) as Hne by (unfold hand; repeat case_decide; lia).
  simpl in Hrun.
  destruct (pool_safe_lookup s hand Hsafe Hhand) as [(d & Hd & _) _].
  rewrite Hd in Hrun. destruct (Hothers hand d Hd Hne) as (Hv & Hr & Hp).
  rewrite Hv, Hr in Hrun. rewrite decide_True in Hrun by done.
  assert (wrap32 (count + 1) = count + 1) as Hw.
  { unfold wrap32. apply Z.mod_small. lia. }
  rewrite Hw in Hrun.
  apply IH in Hrun; try done.
  - by apply pool_safe_clock.
  - lia.
  - unfold hand_distance. simpl. unfold hand. repeat case_decide; lia.
Qed.

(** Before the frame [j]: its reference bit saves it once, and the turn
    that clears the bit is not counted. *)
Lemma allocBuf_loop_gives_up_referenced fuel j dj : ∀ count s r s',
  pool_safe s → numBufs s + 1 < UINT32_MODULUS →
  others_pinned_unreferenced s j →
  frame_lookup (bufDescTable s) j = Some dj → valid dj = true → refbit dj = true →
  0 ≤ count → 2 ≤ count + hand_distance s j →
  allocBuf_loop fuel count s = Some (r, s') →
  r = Throw BufferExceededException.
Proof.
  induction fuel as [|fuel IH];
    intros count s r s' Hsafe Hbound Hothers Hdj Hvj Hrj Hcount Hdist Hrun;
    simpl in Hrun.
  { case_decide; [done|]. by injection Hrun as <- _. }
  case_decide as Hle; [|by injection Hrun as <- _].
  pose proof Hsafe as (Hn & Hlen & _ & Hc & _ & _).
  assert (0 ≤ j < numBufs s) as Hj.
  { apply frame_lookup_Some in Hdj as [? Hl]. apply lookup_lt_Some in Hl. lia. }
  unfold advanceClock in Hrun. rewrite decide_False in Hrun by lia.
  rewrite next_hand in Hrun by lia.
  set (hand := if decide (clockHand s + 1 = numBufs s) then 0 else clockHand s + 1) in *.
  unfold hand_distance in Hdist.
  assert (0 ≤ hand < numBufs s) as Hhand by (unfold hand; repeat case_decide; lia).
  simpl in Hrun.
  destruct (decide (hand = j)) as [Heq|Hne].
  - rewrite Heq, Hdj, Hvj, Hrj in Hrun.
    apply (allocBuf_loop_gives_up _ j) in Hrun; try done.
    + apply (pool_safe_desc (with_clock j s)); [by apply pool_safe_clock|].
      destruct (pool_safe_lookup s j Hsafe Hj) as [(d & Hd & Hf & Hp) _].
      rewrite Hdj in Hd. injection Hd as <-. by split.
    + intros i d Hd Hi. simpl in Hd.
      pose proof Hd as [Hi0 _]%frame_lookup_Some.
      rewrite frame_lookup_update_ne in Hd by lia. by apply (Hothers i d).
    + unfold hand_distance. simpl.
      assert (2 ≤ count) by (unfold hand in Heq; repeat case_decide; lia).
      clear Hdist. case_decide; lia.
  - destruct (pool_safe_lookup s hand Hsafe Hhand) as [(d & Hd & _) _].
    rewrite Hd in Hrun. destruct (Hothers hand d Hd Hne) as (Hv & Hr & Hp).
    rewrite Hv, Hr in Hrun. rewrite decide_True in Hrun by done.
    assert (wrap32 (count + 1) = count + 1) as Hw.
    { unfold wrap32. apply Z.mod_small. lia. }
    rewrite Hw in Hrun.
    apply IH in Hrun; try done.
    + by apply pool_safe_clock.
    + lia.
    + unfold hand_distance. simpl. unfold hand. repeat case_decide; lia.
Qed.

(** X14. [allocBuf] can give up although a frame could be evicted. Let
    frame [j] be valid with its reference bit set, every other frame hold
    a pinned page with its reference bit clear, and the hand pass at
    least two other frames before it is on [j], that is, need at least
    three calls of [advanceClock] to reach [j]. Then the call throws
    BufferExceeded, whatever the pin count of [j], zero included: the
    pinned frames it skips before and after it clears the bit of [j] use
    up the counter. Frame [j] still holds its page, with the pin count it
    had. *)
Theorem allocBuf_gives_up_with_frame_to_spare s j dj :
  pool_safe s → numBufs s + 1 < UINT32_MODULUS →
  frame_lookup (bufDescTable s) j = Some dj → valid dj = true → refbit dj = true →
  others_pinned_unreferenced s j → 2 ≤ hand_distance s j →
  ∃ s' dj', allocBuf s = (Throw BufferExceededException, s') ∧
    frame_lookup (bufDescTable s') j = Some dj' ∧
    file dj' = file dj ∧ pageNo dj' = pageNo dj ∧
    valid dj' = true ∧ pinCnt dj' = pinCnt dj.
Proof.
  intros Hsafe Hbound Hdj Hvj Hrj Hothers Hdist.
  pose proof Hsafe as (_ & Hlen & _).
  destruct (allocBuf_total s) as (r & s' & Hrun & _ & Hfuel); [lia|done|].
  specialize (Hfuel (allocBuf_fuel s) (Nat.le_refl _)).
  apply (allocBuf_loop_gives_up_referenced _ j dj) in Hfuel; try done; try lia.
  subst r.
  pose proof (allocBuf_exceeded_inv _ _ Hrun) as Hscan.
  destruct (scanned_lookup_l _ _ _ _ Hscan Hdj) as (dj' & Hdj' & Hrel).
  exists s', dj'. split; [done|]. split; [done|].
  destruct Hrel as (Hf & Hp & _ & Hpc & _ & Hv & _).
  repeat split; congruence.
Qed.

(** ** Properties of every frame, checked frame by frame *)

Lemma frames_all {A} (P : FrameId → A → Prop) (l : list A) :
  Forall (λ x, P x.1 x.2) (imap (λ (k : nat) x, (Z.of_nat k, x)) l) →
  ∀ i x, frame_lookup l i = Some x → P i x.
Proof.
  intros HF i x [Hi Hl]%frame_lookup_Some.
  rewrite Forall_lookup in HF.
  specialize (HF (Z.to_nat i) (Z.of_nat (Z.to_nat i), x)).
  rewrite list_lookup_imap, Hl in HF. simpl in HF.
  rewrite Z2Nat.id in HF by done. by apply HF.
Qed.

End MoreProofs.

(** * The manager on concrete pools *)

(** The constructor builds the pools of one, two and three frames. *)
Lemma small_pools_constructed :
  BufMgr_new 1 disk0 = (Ok tt, pool1) ∧
  (BufMgr_new 2 disk0).1 = Ok tt ∧ (BufMgr_new 3 disk0).1 = Ok tt.
Proof. evaluated. Qed.

(** The constants of the model: the range of [int], and [1.2] as the
    quotient of 6 by 5 rounded to a double. *)
Lemma int_and_double_constants :
  INT_MAX = 2147483647 ∧ INT_MIN = -2147483648 ∧
  SFdiv 53 1024 (double_of_uint32 6) (double_of_uint32 5) = double_1_2 ∧
  valid_binary 53 1024 double_1_2 = true.
Proof. evaluated. Qed.

(** Line 44 of the constructor on small pools, and where it leaves
    defined behaviour: [(int) (bufs * 1.2) * 2] fits an [int] for
    894784853 frames and overflows for 894784854; the conversion to
    [int] is in range for 1789569706 frames and out of range for
    1789569707. *)
Lemma htsize_boundary :
  htsize 1 = Some 2 ∧ htsize 3 = Some 4 ∧ htsize 10 = Some 13 ∧
  htsize 894784853 = Some 1073741824 ∧ htsize 894784854 = None ∧
  int_of_double (double_mul (double_of_uint32 1789569706) double_1_2) =
    Some 2147483647 ∧
  int_of_double (double_mul (double_of_uint32 1789569707) double_1_2) = None ∧
  htsize (UINT32_MODULUS - 1) = None.
Proof. evaluated. Qed.

Lemma pool1_pinned_reachable : reachable pool1_pinned.
Proof.
  apply (reach_readPage pool1 1 1 (Ok 0)); [|evaluated..].
  apply (reach_new 1 disk0); evaluated.
Qed.

Lemma pool1_clean_reachable : reachable pool1_clean.
Proof.
  apply (reach_unPinPage pool1_pinned 1 1 false (Ok tt)); [|evaluated..].
  apply pool1_pinned_reachable.
Qed.

(** Fetching page 1 again and again reaches every pin count an [int] can
    hold. *)
Lemma pool1_hits_step (n : Z) :
  INT_MIN ≤ n + 1 ≤ INT_MAX →
  readPage 1 1 (pool1_hits n) = (Ok 0, pool1_hits (n + 1)).
Proof.
  intros Hn.
  by rewrite (readPage_hit 1 1 (pool1_hits n) 0 (mkBufDesc (Some 1) 1 0 n false true true)).
Qed.

Lemma pool1_hits_reachable (k : nat) :
  Z.of_nat k + 1 ≤ INT_MAX → reachable (pool1_hits (Z.of_nat k + 1)).
Proof.
  pose proof INT_range as [Hmin Hmax].
  induction k as [|k IH]; intros Hk.
  - apply pool1_pinned_reachable.
  - apply (reach_readPage (pool1_hits (Z.of_nat k + 1)) 1 1 (Ok 0)); [apply IH; lia| |done].
    rewrite pool1_hits_step by lia. do 2 f_equal. lia.
Qed.

Lemma pool1_saturated_reachable : reachable pool1_saturated.
Proof.
  pose proof INT_range as [Hmin Hmax]. unfold pool1_saturated.
  replace INT_MAX with (Z.of_nat (Z.to_nat (INT_MAX - 1)) + 1) at 1 by lia.
  apply pool1_hits_reachable. lia.
Qed.

(** ** C1: a clean victim keeps its index entry *)

(** C1. In a pool of one frame, after page 1 of file 1 has been fetched
    and unpinned without being marked dirty, [allocBuf] returns frame 0,
    which is valid and unpinned, and the index still maps (1, 1) to
    frame 0: the old entry of a clean victim is not removed. *)
Theorem allocBuf_keeps_index_entry_of_clean_victim :
  reachable pool1_clean ∧
  ∃ s' d, allocBuf pool1_clean = (Ok 0, s') ∧
    frame_lookup (bufDescTable s') 0 = Some d ∧
    valid d = true ∧ pinCnt d = 0 ∧ dirty d = false ∧
    file d = Some 1 ∧ pageNo d = 1 ∧
    hashTable s' !! (1, 1) = Some 0.
Proof.
  split.
  - apply pool1_clean_reachable.
  - eexists _, _. split; [vm_compute; reflexivity|]. by vm_compute.
Qed.

(** The stale entry makes a later fetch of page 1 a hit on the frame that
    now holds page 2. *)
Lemma stale_entry_aliases_frame :
  ∃ s1 s2, readPage 1 2 pool1_clean = (Ok 0, s1) ∧
    readPage 1 1 s1 = (Ok 0, s2) ∧
    frame_lookup (bufPool s2) 0 = Some (mkPage 2 22) ∧
    io_log s2 = io_log s1.
Proof. eexists _, _. split; [vm_compute; reflexivity|]. by vm_compute. Qed.

(** ** C2: the index invariant *)

(** C2. The state reached from a fresh pool of one frame by fetching
    page 1 of file 1, unpinning it and flushing file 1 has a valid frame
    whose key the index does not map: the invariant does not hold in every
    reachable state. *)
Theorem index_invariant_broken_by_flushFile :
  ∃ s, flushFile 1 pool1_clean = (Ok tt, s) ∧ reachable s ∧ ¬ index_invariant s.
Proof.
  exists (flushFile 1 pool1_clean).2. split; [by vm_compute|]. split.
  - apply (reach_flushFile pool1_clean 1 (Ok tt)); [|evaluated..].
    apply pool1_clean_reachable.
  - intros Hinv.
    destruct (Hinv 0 (mkBufDesc (Some 1) 1 0 0 false true true)) as (f & Hf & Hh);
      [by vm_compute|done|].
    injection Hf as <-. by vm_compute in Hh.
Qed.

(** ** C3: flushFile and the descriptors *)

(** C3. Flushing file 1 when its only page sits dirty and unpinned in
    frame 0 succeeds and writes the page, but the descriptor of frame 0 is
    as before: still valid, still owned by file 1, still dirty. *)
Theorem flushFile_leaves_descriptor_occupied :
  ∃ s' d, flushFile 1 pool1_dirty = (Ok tt, s') ∧
    frame_lookup (bufDescTable pool1_dirty) 0 = Some d ∧
    frame_lookup (bufDescTable s') 0 = Some d ∧
    valid d = true ∧ file d = Some 1 ∧ dirty d = true ∧ pinCnt d = 0 ∧
    io_log s' = io_log pool1_dirty ++ [EvWrite 1 (mkPage 1 11)] ∧
    hashTable s' !! (1, 1) = None.
Proof. eexists _, _. split; [vm_compute; reflexivity|]. by vm_compute. Qed.

(** ** C4: the bound of the scan *)

(** C4, as stated, fails. In a pool of one frame whose page is pinned and
    unreferenced, the scan has not thrown after [numBufs] = 1 turn; it
    throws at the second. *)
Lemma scan_not_exhausted_within_numBufs_turns :
  pool_wf pool1_swept ∧ all_pinned pool1_swept ∧ numBufs pool1_swept = 1 ∧
  ¬ (∃ fuel s', (fuel ≤ Z.to_nat (numBufs pool1_swept))%nat ∧
       allocBuf_loop fuel 0 pool1_swept = Some (Throw BufferExceededException, s')) ∧
  ∃ s', allocBuf_loop 2 0 pool1_swept = Some (Throw BufferExceededException, s').
Proof.
  split; [by vm_compute|]. split.
  { unfold all_pinned. vm_compute. by repeat constructor. }
  split; [done|]. split.
  - intros (fuel & s' & Hfuel & Hrun).
    change (Z.to_nat (numBufs pool1_swept)) with 1%nat in Hfuel.
    destruct fuel as [|[|fuel]]; [by vm_compute in Hrun..|lia].
  - eexists. by vm_compute.
Qed.

(** ** C5: a miss that reads nothing *)

(** C5, as stated, fails. In a pool of one frame whose page is pinned, a
    fetch of another page misses, calls nothing on the file and throws
    BufferExceeded; the frame still holds the first page. And once the
    page has been fetched INT_MAX times without an unpin, one more fetch
    is a hit whose increment is not defined. *)
Lemma readPage_miss_on_full_pool_reads_nothing :
  (reachable pool1_pinned ∧
   hashTable pool1_pinned !! (1, 2) = None ∧
   readPage 1 2 pool1_pinned = (Throw BufferExceededException, pool1_swept) ∧
   io_log pool1_swept = io_log pool1_pinned ∧
   reads (io_log pool1_swept) = reads (io_log pool1_pinned) ∧
   ∃ d, frame_lookup (bufDescTable pool1_swept) 0 = Some d ∧
     pageNo d = 1 ∧ pinCnt d = 1) ∧
  (reachable pool1_saturated ∧
   hashTable pool1_saturated !! (1, 1) = Some 0 ∧
   (readPage 1 1 pool1_saturated).1 = Undefined).
Proof.
  split.
  - split; [apply pool1_pinned_reachable|].
    do 4 (split; [by vm_compute|]). eexists. by vm_compute.
  - split; [apply pool1_saturated_reachable|]. by vm_compute.
Qed.

(** ** C6: unpinning a page that has been evicted *)

(** C6. In a pool of one frame, page 1 of file 1 is fetched and unpinned,
    and a fetch of page 2 takes its frame: page 1 is no longer resident,
    and frame 0 holds page 2 with one pin. [unPinPage] of page 1 is then
    not a no-op: it returns normally, having taken the pin off frame 0
    and marked page 2 dirty. The key of page 1 is still in the index,
    where the eviction of a clean victim leaves it. A second [unPinPage]
    of page 1 throws PageNotPinned. *)
Theorem unPinPage_unpins_frame_of_evicted_page :
  reachable pool1_evicted ∧ ¬ resident pool1_evicted 1 1 ∧
  frame_lookup (bufDescTable pool1_evicted) 0 =
    Some (mkBufDesc (Some 1) 2 0 1 false true true) ∧
  hashTable pool1_evicted !! (1, 1) = Some 0 ∧
  ∃ s', unPinPage 1 1 true pool1_evicted = (Ok tt, s') ∧
    frame_lookup (bufDescTable s') 0 =
      Some (mkBufDesc (Some 1) 2 0 0 true true true) ∧
    unPinPage 1 1 true s' = (Throw PageNotPinnedException, s').
Proof.
  split; [|split; [|split; [by vm_compute|split; [by vm_compute|]]]].
  - apply (reach_readPage pool1_clean 1 2 (Ok 0)); [|evaluated..].
    apply pool1_clean_reachable.
  - intros (i & d & Hd & Hv & Hf & Hp).
    apply frame_lookup_Some in Hd as [_ Hd].
    change (bufDescTable pool1_evicted)
      with [mkBufDesc (Some 1) 2 0 1 false true true] in Hd.
    destruct (Z.to_nat i) as [|n]; [|by destruct n].
    injection Hd as <-. done.
  - eexists. split; [vm_compute; reflexivity|]. by vm_compute.
Qed.

(** * The theorems at concrete pools *)

Lemma pool_exhausted_when_all_pinned_witness :
  (∃ s s', fetch_all [(1, 1); (1, 2)] (BufMgr_new 2 disk0).2 = (Ok tt, s) ∧
     all_pinned s ∧ readPage 1 3 s = (Throw BufferExceededException, s')) ∧
  (∃ s', allocBuf pool1_swept = (Throw BufferExceededException, s')) ∧
  allocBuf_loop 1 0 pool1_swept = None ∧
  numBufs pool1 + 1 < UINT32_MODULUS.
Proof.
  split; [|split; [|split]].
  - apply (proj1 pool_exhausted_when_all_pinned 2 disk0 (BufMgr_new 2 disk0).2
             [(1, 1); (1, 2)] 1 3).
    + evaluated.
    + evaluated.
    + apply (bool_decide_unpack _). evaluated.
    + reflexivity.
    + apply (bool_decide_unpack _). evaluated.
    + intros key Hkey. apply (bool_decide_unpack _).
      rewrite !elem_of_cons in Hkey.
      destruct Hkey as [->|[->|Hkey]]; [evaluated..|by apply elem_of_nil in Hkey].
  - apply (proj1 (proj2 pool_exhausted_when_all_pinned) pool1_swept).
    + evaluated.
    + evaluated.
    + apply (bool_decide_unpack _). evaluated.
  - apply (proj1 (proj2 pool_exhausted_when_all_pinned) pool1_swept).
    + evaluated.
    + evaluated.
    + apply (bool_decide_unpack _). evaluated.
    + vm_compute. lia.
  - apply (proj2 (proj2 pool_exhausted_when_all_pinned) 1 disk0 pool1); evaluated.
Defined.

Lemma readPage_hit_and_miss_witness :
  (∃ s' d', readPage 1 1 pool1_clean = (Ok 0, s') ∧
     frame_lookup (bufDescTable s') 0 = Some d' ∧
     pinCnt d' = 1 ∧ refbit d' = true ∧ io_log s' = io_log pool1_clean) ∧
  (∃ s' d', readPage 1 2 pool1_clean = (Ok 0, s') ∧
     reads (io_log s') = S (reads (io_log pool1_clean)) ∧
     hashTable s' !! (1, 2) = Some 0 ∧
     frame_lookup (bufPool s') 0 = Some (mkPage 2 22) ∧
     frame_lookup (bufDescTable s') 0 = Some d' ∧
     pinCnt d' = 1 ∧ refbit d' = true ∧ dirty d' = false ∧
     file d' = Some 1 ∧ pageNo d' = 2 ∧ valid d' = true) ∧
  readPage 1 9 pool1_clean =
    (Throw FileException, with_event (EvRead 1 9) (allocBuf pool1_clean).2) ∧
  readPage 1 2 pool1_pinned = (Throw BufferExceededException, pool1_swept) ∧
  reads (io_log pool1_swept) = reads (io_log pool1_pinned).
Proof.
  split; [|split; [|split]].
  - destruct (proj1 (readPage_hit_and_miss 1 1 pool1_clean) 0
                (mkBufDesc (Some 1) 1 0 0 false true true))
      as (s' & d' & Hrun & Hd' & Hpin & Href & _ & _ & _ & _ & _ & Hlog & _);
      [evaluated..|].
    exists s', d'. exact (conj Hrun (conj Hd' (conj Hpin (conj Href Hlog)))).
  - destruct (proj1 (proj2 (readPage_hit_and_miss 1 2 pool1_clean)) 0
                (allocBuf pool1_clean).2 (mkPage 2 22))
      as (s' & d' & Hrun & _ & Hreads & Hrest).
    + evaluated.
    + evaluated.
    + apply (bool_decide_unpack _). evaluated.
    + evaluated.
    + exists s', d'. exact (conj Hrun (conj Hreads Hrest)).
  - apply (proj1 (proj2 (proj2 (readPage_hit_and_miss 1 9 pool1_clean))) 0); evaluated.
  - apply (proj2 (proj2 (proj2 (readPage_hit_and_miss 1 2 pool1_pinned)))).
    + evaluated.
    + evaluated.
    + intros fr. discriminate.
Defined.

Lemma flushFile_fails_without_rollback_witness :
  flushFile 1 pool2_half =
    (Throw BadBufferException, (flushFile_loop 1 [0] pool2_half).2) ∧
  flushFile 1 pool2_full =
    (Throw PagePinnedException, (flushFile_loop 1 [0] pool2_full).2) ∧
  hashTable (flushFile_loop 1 [0] pool2_half).2 !! (1, 1) = None ∧
  (∃ pg, frame_lookup (bufPool pool2_half) 0 = Some pg ∧
     EvWrite 1 pg ∈ io_log (flushFile_loop 1 [0] pool2_half).2) ∧
  ∀ s', flushFile 1 pool2_half ≠ (Ok tt, s').
Proof.
  destruct (proj1 (flushFile_fails_without_rollback 1 pool2_half) 1
              (initial_desc 1) (flushFile_loop 1 [0] pool2_half).2)
    as (Hbad & _ & Hkept); [evaluated..|].
  destruct (proj1 (flushFile_fails_without_rollback 1 pool2_full) 1
              (mkBufDesc (Some 1) 2 1 1 false true true)
              (flushFile_loop 1 [0] pool2_full).2)
    as (_ & Hpinned & _); [evaluated..|].
  destruct (Hkept 0 (mkBufDesc (Some 1) 1 0 0 true true true)) as (Hgone & Hwritten);
    [evaluated..|].
  split; [by apply Hbad|]. split; [apply Hpinned; evaluated|].
  split; [exact Hgone|]. split; [by apply Hwritten|].
  apply (proj2 (flushFile_fails_without_rollback 1 pool2_half) 1 (initial_desc 1));
    [evaluated..|by left].
Defined.

Lemma disposePage_absent_no_delete_witness :
  disposePage 1 1 pool1 = (Ok tt, pool1).
Proof. apply disposePage_absent_no_delete. evaluated. Defined.


Lemma disposePage_keeps_pool_changes_on_delete_failure_witness :
  ∃ s' d', disposePage (FL := readonly_layer) 1 1 pool1_pinned = (Ok tt, s') ∧
    hashTable s' !! (1, 1) = None ∧
    frame_lookup (bufDescTable s') 0 = Some d' ∧
    valid d' = false ∧ file d' = None.
Proof.
  destruct (disposePage_keeps_pool_changes_on_delete_failure (FL := readonly_layer)
              1 1 pool1_pinned 0 (mkBufDesc (Some 1) 1 0 1 false true true))
    as (s' & d' & Hrun & Hh & Hd' & _ & Hv & Hf & _); [evaluated..|].
  by exists s', d'.
Defined.

(** ** The further properties at concrete pools *)

Lemma advanceClock_cycles_witness :
  advanceClock_times 2 pool2_full = (Ok tt, pool2_full).
Proof.
  apply (proj2 (advanceClock_cycles pool2_full ltac:(evaluated) ltac:(evaluated))).
Defined.

Lemma reachable_pool_safe_witness :
  pool_safe pool1_clean ∧ numBufs pool1_clean + 1 < UINT32_MODULUS.
Proof.
  apply reachable_pool_safe.
  apply (reach_unPinPage pool1_pinned 1 1 false (Ok tt)); [|evaluated..].
  apply (reach_readPage pool1 1 1 (Ok 0)); [|evaluated..].
  apply (reach_new 1 disk0); evaluated.
Defined.

Lemma run_call_defined_witness :
  (pool_safe (readPage 1 1 pool1_pinned).2 ∧
   numBufs (readPage 1 1 pool1_pinned).2 = numBufs pool1_pinned) ∧
  (readPage 1 1 pool1_saturated).1 = Undefined.
Proof.
  split.
  - apply (run_call_defined (CallReadPage 1 1) pool1_pinned (Ok tt)
             (readPage 1 1 pool1_pinned).2).
    + apply (bool_decide_unpack _). evaluated.
    + evaluated.
    + discriminate.
  - assert (pool_safe pool1_saturated) as Hsafe
      by (apply (bool_decide_unpack _); evaluated).
    destruct (readPage 1 1 pool1_saturated) as [r s'] eqn:Hrun.
    assert (run_call (CallReadPage 1 1) pool1_saturated = (forget r, s')) as Hcall
      by (simpl; by rewrite Hrun).
    destruct (run_call_defined _ _ _ _ Hsafe Hcall) as ([_ Hundefined] & _).
    simpl. apply forget_Undefined, Hundefined.
    exists 1, 1, 0, (mkBufDesc (Some 1) 1 0 INT_MAX false true true).
    evaluated.
Defined.

Lemma allocBuf_finds_takeable_frame_witness :
  ∃ r s', allocBuf pool2_half = (r, s') ∧
    ((∃ fr, r = Ok fr) ∨ r = Throw FileException).
Proof.
  destruct (allocBuf_finds_takeable_frame pool2_half 1 (initial_desc 1))
    as (r & s' & Hrun & _ & _ & Hinv).
  - apply (bool_decide_unpack _). evaluated.
  - evaluated.
  - left. evaluated.
  - exists r, s'. split; [exact Hrun|]. apply Hinv.
    refine (frames_all (λ i d, valid d = true →
              ∃ f, file d = Some f ∧ hashTable pool2_half !! (f, pageNo d) = Some i)
              (bufDescTable pool2_half) _).
    repeat constructor; [|intros Hv; by vm_compute in Hv].
    intros _. exists 1. evaluated.
Defined.

Lemma pinned_frame_survives_witness :
  still_held pool2_full (readPage 1 3 pool2_full).2 1
    (mkBufDesc (Some 1) 2 1 1 false true true) ∧
  still_held pool2_full (allocPage 1 pool2_full).2 1
    (mkBufDesc (Some 1) 2 1 1 false true true).
Proof.
  destruct (pinned_frame_survives pool2_full 1 (mkBufDesc (Some 1) 2 1 1 false true true))
    as [Hread Halloc]; [evaluated..|].
  split.
  - apply (Hread 1 3 (readPage 1 3 pool2_full).1); [apply surjective_pairing|].
    evaluated.
  - apply (Halloc 1 (allocPage 1 pool2_full).1); [apply surjective_pairing|].
    evaluated.
Defined.

Lemma index_invariant_kept_witness :
  index_invariant pool1_dirty ∧
  index_invariant (disposePage 1 1 pool1_pinned).2 ∧
  index_invariant (readPage 1 1 pool1_pinned).2.
Proof.
  assert (index_invariant pool1_pinned) as Hinv.
  { refine (frames_all (λ i d, valid d = true →
               ∃ f, file d = Some f ∧ hashTable pool1_pinned !! (f, pageNo d) = Some i)
              (bufDescTable pool1_pinned) _).
    repeat constructor. intros _. exists 1. evaluated. }
  destruct (index_invariant_kept pool1_pinned Hinv) as (Hunpin & Hdispose & Hread & _).
  split; [|split].
  - apply (Hunpin 1 1 true (Ok tt)). evaluated.
  - apply (Hdispose 1 1 (Ok tt)). evaluated.
  - apply (Hread 1 1 (Ok 0)); [evaluated|]. left. by exists 0.
Defined.

Lemma allocPage_installs_new_page_witness :
  ∃ pg dk, file_allocatePage 1 disk0 = Some (pg, dk) ∧ 4 = page_number pg ∧
    hashTable (allocPage 1 pool1).2 !! (1, 4) = Some 0 ∧
    frame_lookup (bufPool (allocPage 1 pool1).2) 0 = Some pg.
Proof.
  destruct (allocPage_installs_new_page 1 pool1 4 0 (allocPage 1 pool1).2)
    as (pg & dk & Hfile & Hpn & Hh & Hpg & _); [evaluated|].
  by exists pg, dk.
Defined.

Lemma allocPage_failures_witness :
  allocPage (FL := readonly_layer) 1 pool1 =
    (Throw FileException, with_event (EvAllocate 1) pool1) ∧
  ∃ s', allocPage 1 pool1_pinned = (Throw BufferExceededException, s') ∧
    hashTable s' = hashTable pool1_pinned ∧ bufPool s' = bufPool pool1_pinned.
Proof.
  split.
  - apply (proj1 (allocPage_failures (FL := readonly_layer) 1 pool1)). reflexivity.
  - destruct (proj2 (allocPage_failures 1 pool1_pinned)
                (mkPage 4 0) (disk0 ++ [(1, mkPage 4 0)]))
      as (s' & Hrun & _ & _ & Hh & Hp).
    + evaluated.
    + evaluated.
    + evaluated.
    + apply (bool_decide_unpack _). evaluated.
    + by exists s'.
Defined.

Lemma readPage_read_failure_witness :
  readPage 1 9 pool1_dirty =
    (Throw FileException, with_event (EvRead 1 9) (allocBuf pool1_dirty).2) ∧
  hashTable (allocBuf pool1_dirty).2 !! (1, 1) = None ∧
  ∃ d', frame_lookup (bufDescTable (allocBuf pool1_dirty).2) 0 = Some d' ∧
    valid d' = true.
Proof.
  destruct (readPage_read_failure 1 9 pool1_dirty 0 (allocBuf pool1_dirty).2)
    as (Hrun & _ & Hvictim); [evaluated..|].
  destruct (Hvictim (mkBufDesc (Some 1) 1 0 0 true true true))
    as (f0 & d' & Hf0 & Hd' & Hv & _ & _ & Hh); [evaluated..|].
  injection Hf0 as <-.
  split; [exact Hrun|]. split; [exact Hh|]. exists d'. exact (conj Hd' Hv).
Defined.

Lemma readPage_unPinPage_round_trip_witness :
  bind (readPage 1 1) (λ _, unPinPage 1 1 false) pool1_dirty = (Ok tt, pool1_dirty).
Proof.
  rewrite (readPage_unPinPage_round_trip 1 1 pool1_dirty 0
             (mkBufDesc (Some 1) 1 0 0 true true true)); evaluated.
Defined.

Lemma disposePage_drops_page_witness :
  hashTable (disposePage 1 1 pool1_pinned).2 !! (1, 1) = None ∧
  frame_lookup (bufDescTable (disposePage 1 1 pool1_pinned).2) 0 =
    Some (Clear (mkBufDesc (Some 1) 1 0 1 false true true)).
Proof.
  destruct (disposePage_drops_page 1 1 pool1_pinned (Ok tt) (disposePage 1 1 pool1_pinned).2)
    as (_ & _ & Hh & _ & Hframe); [evaluated|].
  split; [done|].
  apply (Hframe 0 (mkBufDesc (Some 1) 1 0 1 false true true)); evaluated.
Defined.

Lemma flushFile_exact_effect_witness :
  io_log (flushFile 1 pool2_unpinned).2 =
    io_log pool2_unpinned ++ [EvWrite 1 (mkPage 1 11)] ∧
  hashTable (flushFile 1 pool2_unpinned).2 !! (1, 1) = None ∧
  hashTable (flushFile 1 pool2_unpinned).2 !! (1, 2) = None.
Proof.
  assert (flushFile 1 pool2_unpinned = (Ok tt, (flushFile 1 pool2_unpinned).2)) as Hrun
    by evaluated.
  destruct (flushFile_exact_effect 1 pool2_unpinned _ Hrun) as (Hlog & Hh & _).
  split; [|split].
  - rewrite Hlog. evaluated.
  - rewrite Hh. evaluated.
  - rewrite Hh. evaluated.
Defined.

Lemma fresh_pool_loads_in_frame_order_witness :
  ∃ s, fetch_all [(1, 1); (1, 2); (1, 3)] (BufMgr_new 3 disk0).2 = (Ok tt, s) ∧
    loaded disk0 [(1, 1); (1, 2); (1, 3)] s.
Proof.
  apply (fresh_pool_loads_in_frame_order 3 disk0 (BufMgr_new 3 disk0).2
           [(1, 1); (1, 2); (1, 3)]).
  - evaluated.
  - evaluated.
  - apply (bool_decide_unpack _). evaluated.
  - vm_compute. lia.
  - intros key Hkey. apply (bool_decide_unpack _).
    rewrite !elem_of_cons in Hkey.
    destruct Hkey as [->|[->|[->|Hkey]]]; [evaluated..|by apply elem_of_nil in Hkey].
Defined.

Lemma allocBuf_gives_up_with_frame_to_spare_witness :
  ∃ s' dj', allocBuf pool3_spare = (Throw BufferExceededException, s') ∧
    frame_lookup (bufDescTable s') 0 = Some dj' ∧
    valid dj' = true ∧ pinCnt dj' = 0.
Proof.
  destruct (allocBuf_gives_up_with_frame_to_spare pool3_spare 0
              (mkBufDesc (Some 1) 1 0 0 false true true))
    as (s' & dj' & Hrun & Hdj' & _ & _ & Hv & Hp).
  - apply (bool_decide_unpack _). evaluated.
  - evaluated.
  - evaluated.
  - reflexivity.
  - reflexivity.
  - refine (frames_all (λ i d, i ≠ 0 → valid d = true ∧ refbit d = false ∧ pinCnt d > 0)
              (bufDescTable pool3_spare) _).
    apply (bool_decide_unpack _). evaluated.
  - vm_compute. discriminate.
  - exists s', dj'. exact (conj Hrun (conj Hdj' (conj Hv Hp))).
Defined.
